(** * indirect<T>: a value-semantic owner of a polymorphic heap object

    Shallow embedding of [indirect.h].  The C++ heap is a finite map from
    addresses to complete objects, every container variable lives in a
    frame of named objects (so that [&p == this] and aliasing are
    expressible), and member functions are computations in a state monad
    with four abnormal endings: a C++ exception, a failed [assert], a call
    of [std::terminate], and undefined behaviour. *)

From Stdlib Require Import ZArith.
From stdpp Require Import base option gmap strings.

Set Default Proof Using "Type".

(** ** Outcomes and the state monad *)

Inductive outcome (S A : Type) : Type :=
| Ok (a : A) (s : S)      (* normal completion *)
| Throw (s : S)           (* an exception leaves the call; [s] is the state it leaves behind *)
| AssertFail              (* [assert] failed (debug builds only) *)
| Terminate               (* an exception met a [noexcept] boundary *)
| Undefined.              (* undefined behaviour *)
Arguments Ok {S A} a s.
Arguments Throw {S A} s.
Arguments AssertFail {S A}.
Arguments Terminate {S A}.
Arguments Undefined {S A}.

Definition M (S A : Type) : Type := S → outcome S A.

Definition ret {S A} (a : A) : M S A := λ s, Ok a s.

Definition bind {S A B} (m : M S A) (k : A → M S B) : M S B :=
  λ s, match m s with
       | Ok a s' => k a s'
       | Throw s' => Throw s'
       | AssertFail => AssertFail
       | Terminate => Terminate
       | Undefined => Undefined
       end.

Declare Scope M_scope.
Delimit Scope M_scope with M.
Notation "x ← y ; z" := (bind y (λ x : _, z))
  (at level 20, y at level 100, z at level 200, only parsing) : M_scope.
Notation "x ;; z" := (bind x (λ _, z))
  (at level 100, z at level 200, only parsing, right associativity) : M_scope.
Open Scope M_scope.

Definition throw {S A} : M S A := λ s, Throw s.
Definition undefined {S A} : M S A := λ _, Undefined.
Definition assert_fail {S A} : M S A := λ _, AssertFail.

(** Stack unwinding: when [m] throws, [cleanup] runs on the state the
    exception left behind and the exception travels on.  An exception that
    leaves a destructor during unwinding terminates the program. *)
Definition on_throw {S A} (m : M S A) (cleanup : M S unit) : M S A :=
  λ s, match m s with
       | Throw s' =>
           match cleanup s' with
           | Ok _ s'' => Throw s''
           | Throw _ => Terminate
           | AssertFail => AssertFail
           | Terminate => Terminate
           | Undefined => Undefined
           end
       | r => r
       end.

(** A [noexcept] function: an escaping exception calls [std::terminate]. *)
Definition noexcept {S A} (m : M S A) : M S A :=
  λ s, match m s with
       | Throw _ => Terminate
       | r => r
       end.

(** ** Classes, objects and the heap *)

Definition class := string.
Definition addr := nat.
Definition name := nat.

(** A raw pointer: [None] is [nullptr]. *)
Definition pointer := option addr.

(** What the header takes from outside: the constructors and copy
    constructors of the classes it is instantiated with ([None]: the
    constructor throws), which classes are polymorphic (declare or
    inherit a virtual function), the allocator's answer to the n-th
    request of storage ([false]: [std::bad_alloc]), and whether [assert]
    is compiled in ([NDEBUG] not defined). *)
Class World (V A : Type) := {
  construct : class → A → option V;
  copy_construct : class → V → option V;
  polymorphic : class → bool;
  alloc_ok : nat → bool;
  debug : bool
}.

Section model.
Context {V A : Type} `{!World V A}.

(** A complete object: its dynamic type ([typeid]) and its state. *)
Record object := Object { typeid : class; state : V }.

Record heap := Heap {
  cells : gmap addr object;   (* live objects *)
  allocs : nat                (* requests of storage made so far *)
}.

(** [operator new]: asks for storage; throws [std::bad_alloc] when the
    allocator refuses. *)
Definition operator_new : M heap unit :=
  λ h, if alloc_ok (allocs h)
       then Ok () (Heap (cells h) (S (allocs h)))
       else Throw (Heap (cells h) (S (allocs h))).

(** The new-expression [new U(...)], [init] being the outcome of the
    constructor: storage is obtained first; when the constructor throws
    the storage is given back; otherwise the object lives at an address
    that no live object occupies. *)
Definition new_ (U : class) (init : option V) : M heap addr :=
  operator_new ;;
  match init with
  | None => throw
  | Some v => λ h, let a := fresh (dom (cells h)) in
                   Ok a (Heap (<[a := Object U v]> (cells h)) (allocs h))
  end.

(** [*p] for a non-null [p]: undefined when nothing lives there. *)
Definition deref (a : addr) : M heap object :=
  λ h, match cells h !! a with
       | Some o => Ok o h
       | None => Undefined
       end.

(** The delete-expression on a non-null pointer. *)
Definition delete_ (a : addr) : M heap unit :=
  λ h, match cells h !! a with
       | Some _ => Ok () (Heap (delete a (cells h)) (allocs h))
       | None => Undefined
       end.

(** ** Copy and delete strategies *)

(** A copier is called on a reference and returns a raw pointer; a
    deleter is called on a raw pointer. *)
Definition copier := addr → M heap pointer.
Definition deleter := pointer → M heap unit.

(** [default_copier<U>::operator()]: [return new U(t);]. *)
Definition default_copier (U : class) : copier :=
  λ t, o ← deref t; a ← new_ U (copy_construct U (state o)); ret (Some a).

(** [default_deleter<U>::operator()]: [delete t;]. *)
Definition default_deleter : deleter :=
  λ t, match t with
       | None => ret ()
       | Some a => delete_ a
       end.

(** ** Control blocks

    A [std::unique_ptr] to a control block is an [option control_block]:
    the owner holds the block itself.  [direct_control_block] keeps its
    object [u_] inline, so the address of [u_] stands for the block's own
    storage; the two other blocks hold no object of their own. *)
#[warnings="-register-all"]
Inductive control_block : Type :=
| pointer_control_block (p_ : pointer) (c_ : copier) (d_ : deleter)
| direct_control_block (U : class) (u_ : addr)
| delegating_control_block (delegate_ : option control_block).

(** [assert(e)] for a condition without effects: nothing happens when it
    holds; when it does not, a debug build aborts. *)
Definition assert_ {S} (e : bool) : M S unit :=
  if e then ret () else if debug then assert_fail else ret ().

(** [std::make_unique<B>(...)] for a block without inline object: one
    request of storage, then the block is built from its arguments. *)
Definition make_unique (b : control_block) : M heap control_block :=
  operator_new ;; ret b.

(** [std::make_unique<direct_control_block<T, U>>(...)]: the block and its
    [u_] are one allocation, [init] is the outcome of constructing [u_]. *)
Definition make_unique_direct (U : class) (init : option V) : M heap control_block :=
  a ← new_ U init; ret (direct_control_block U a).

(** The destructor of a block followed by the release of its storage,
    as run by [std::unique_ptr<control_block>]. *)
Fixpoint destroy (b : control_block) : M heap unit :=
  match b with
  | pointer_control_block p_ _ d_ =>
      match p_ with
      | None => ret ()
      | Some a => d_ (Some a)
      end
  | direct_control_block _ u_ => delete_ u_
  | delegating_control_block delegate_ =>
      match delegate_ with
      | None => ret ()
      | Some d => destroy d
      end
  end.

(** [control_block::clone]. *)
Fixpoint clone (b : control_block) : M heap control_block :=
  match b with
  | pointer_control_block p_ c_ d_ =>
      assert_ (bool_decide (is_Some p_)) ;;
      match p_ with
      | None => undefined
      | Some a => u ← c_ a; make_unique (pointer_control_block u c_ d_)
      end
  | direct_control_block U u_ =>
      o ← deref u_; make_unique_direct U (copy_construct U (state o))
  | delegating_control_block delegate_ =>
      match delegate_ with
      | None => undefined
      | Some d =>
          (* the inner clone is a temporary [unique_ptr]: it is destroyed
             when [make_unique] throws *)
          d' ← clone d;
          on_throw (make_unique (delegating_control_block (Some d')))
                   (noexcept (destroy d'))
      end
  end.

(** [control_block::ptr]. *)
Fixpoint ptr (b : control_block) : M heap pointer :=
  match b with
  | pointer_control_block p_ _ _ => ret p_
  | direct_control_block _ u_ => ret (Some u_)
  | delegating_control_block delegate_ =>
      match delegate_ with
      | None => undefined
      | Some d => ptr d
      end
  end.

(** [~unique_ptr<control_block>]. *)
Definition destroy_opt (c : option control_block) : M heap unit :=
  match c with
  | None => ret ()
  | Some b => destroy b
  end.

(** ** The container *)

Record indirect := Indirect {
  ptr_ : pointer;
  cb_ : option control_block
}.

Record machine := Machine {
  memory : heap;
  vars : gmap name indirect    (* the [indirect] objects in scope, by name *)
}.

Definition lift {B} (m : M heap B) : M machine B :=
  λ s, match m (memory s) with
       | Ok b h => Ok b (Machine h (vars s))
       | Throw h => Throw (Machine h (vars s))
       | AssertFail => AssertFail
       | Terminate => Terminate
       | Undefined => Undefined
       end.

Definition load (x : name) : M machine indirect :=
  λ s, match vars s !! x with
       | Some i => Ok i s
       | None => Undefined
       end.

Definition store (x : name) (i : indirect) : M machine unit :=
  λ s, Ok () (Machine (memory s) (<[x := i]> (vars s))).

Definition forget (x : name) : M machine unit :=
  λ s, Ok () (Machine (memory s) (delete x (vars s))).

Definition get_ptr (x : name) : M machine pointer := i ← load x; ret (ptr_ i).
Definition get_cb (x : name) : M machine (option control_block) := i ← load x; ret (cb_ i).
Definition set_ptr (x : name) (p : pointer) : M machine unit :=
  i ← load x; store x (Indirect p (cb_ i)).
Definition set_cb (x : name) (c : option control_block) : M machine unit :=
  i ← load x; store x (Indirect (ptr_ i) c).

(** [std::move(x.cb_)] received by a move constructor: the block leaves
    [x], whose [cb_] becomes null. *)
Definition release (x : name) : M machine (option control_block) :=
  c ← get_cb x; set_cb x None ;; ret c.

(** [x.cb_ = std::move(c)], that is [reset(c.release())]: the new block is
    stored, then the old one is destroyed.  Assignment, [reset] and the
    destructor of [std::unique_ptr] are [noexcept]. *)
Definition assign_cb (x : name) (c : option control_block) : M machine unit :=
  old ← get_cb x; set_cb x c ;; lift (noexcept (destroy_opt old)).

(** [indirect::~indirect]. *)
Definition indirect_dtor (x : name) : M machine unit :=
  i ← load x; lift (noexcept (destroy_opt (cb_ i))) ;; forget x.

(** A constructor of [indirect]: the members start from their default
    initialisers ([ptr_ = nullptr], [cb_] null); when the body throws,
    the members are destroyed and the object never existed. *)
Definition constructing (this : name) (body : M machine unit) : M machine unit :=
  store this (Indirect None None) ;; on_throw body (indirect_dtor this).

(** A local variable of type [indirect]: built by [ctor] under a name
    that is neither in use nor among [others] (the names the enclosing
    function speaks of), destroyed when [body] returns or throws. *)
Definition with_local {B} (others : list name) (ctor : name → M machine unit)
    (body : name → M machine B) : M machine B :=
  λ s, let x := fresh (list_to_set others ∪ dom (vars s) : gset name) in
       (ctor x ;; r ← on_throw (body x) (indirect_dtor x); indirect_dtor x ;; ret r) s.

(** [indirect::operator bool]. *)
Definition op_bool (this : name) : M machine bool :=
  c ← get_cb this; ret (bool_decide (is_Some c)).

(** [indirect::empty]. *)
Definition empty_ (this : name) : M machine bool :=
  c ← get_cb this; ret (negb (bool_decide (is_Some c))).

(** [p->m(...)] through a [unique_ptr<control_block>]. *)
Definition through {B} (c : option control_block) (m : control_block → M heap B) : M machine B :=
  match c with
  | None => undefined
  | Some b => lift (m b)
  end.

(** [indirect::init] (private). *)
Definition init (this : name) (p : option control_block) : M machine unit :=
  assign_cb this p ;;
  c ← get_cb this; q ← through c ptr; set_ptr this q.

(** [indirect::indirect()]. *)
Definition indirect_default (this : name) : M machine unit :=
  constructing this (ret ()).

(** [typeid( *u )] for [u] of type [U*].  When [U] is polymorphic the
    operand is evaluated and the result names the class of the most
    derived object; otherwise the operand is not evaluated and the result
    names the static type [U]. *)
Definition typeid_of (U : class) (a : addr) : M heap class :=
  if polymorphic U
  then o ← deref a; ret (typeid o)
  else ret U.

(** [assert(typeid( *u ) == typeid(U))]: the operand is evaluated only when
    assertions are compiled in. *)
Definition assert_typeid (a : addr) (U : class) : M machine unit :=
  if debug
  then t ← lift (typeid_of U a);
       if bool_decide (t = U) then ret () else assert_fail
  else ret ().

(** [indirect::indirect(U* u, C copier, D deleter)]. *)
Definition indirect_adopt (U : class) (u : pointer) (copier_ : copier)
    (deleter_ : deleter) (this : name) : M machine unit :=
  constructing this
    match u with
    | None => ret ()
    | Some a =>
        assert_typeid a U ;;
        b ← lift (make_unique (pointer_control_block u copier_ deleter_));
        assign_cb this (Some b) ;;
        set_ptr this u
    end.

(** The statements shared by the copy constructor and copy assignment:
    [auto tmp_cb = p.cb_->clone(); ptr_ = tmp_cb->ptr(); cb_ = std::move(tmp_cb);]. *)
Definition adopt_clone_of (this p : name) : M machine unit :=
  c ← get_cb p;
  tmp_cb ← through c clone;
  q ← lift (ptr tmp_cb);
  set_ptr this q ;;
  assign_cb this (Some tmp_cb).

(** [indirect::indirect(const indirect& p)]. *)
Definition indirect_copy (this p : name) : M machine unit :=
  constructing this
    (b ← op_bool p;
     if negb b then ret () else adopt_clone_of this p).

(** [std::make_unique<delegating_control_block<T, U>>(std::move(x.cb_))]:
    the storage is requested before the block is moved out of [x]. *)
Definition make_delegating_from (x : name) : M machine control_block :=
  lift operator_new ;; c ← release x; ret (delegating_control_block c).

(** [indirect::indirect(const indirect<U>& p)]. *)
Definition indirect_copy_conv (this p : name) : M machine unit :=
  constructing this
    (with_local [this; p] (λ tmp, indirect_copy tmp p)
       (λ tmp, q ← get_ptr tmp;
               set_ptr this q ;;
               b ← make_delegating_from tmp;
               assign_cb this (Some b))).

(** [indirect::indirect(indirect&& p) noexcept]. *)
Definition indirect_move (this p : name) : M machine unit :=
  noexcept (constructing this
    (q ← get_ptr p;
     set_ptr this q ;;
     c ← release p;
     assign_cb this c ;;
     set_ptr p None)).

(** [indirect::indirect(indirect<U>&& p) noexcept]. *)
Definition indirect_move_conv (this p : name) : M machine unit :=
  noexcept (constructing this
    (q ← get_ptr p;
     set_ptr this q ;;
     b ← make_delegating_from p;
     assign_cb this (Some b) ;;
     set_ptr p None)).

(** [indirect::operator=(const indirect& p)]. *)
Definition assign_copy (this p : name) : M machine unit :=
  if bool_decide (p = this) then ret ()
  else
    b ← op_bool p;
    if negb b
    then assign_cb this None ;; set_ptr this None
    else adopt_clone_of this p.

(** [indirect::operator=(indirect&& p) noexcept]. *)
Definition assign_move (this p : name) : M machine unit :=
  noexcept
    (if bool_decide (p = this) then ret ()
     else
       c ← release p;
       assign_cb this c ;;
       q ← get_ptr p;
       set_ptr this q ;;
       set_ptr p None).

(** [indirect::operator=(indirect<U>&& p) noexcept]. *)
Definition assign_move_conv (this p : name) : M machine unit :=
  noexcept
    (b ← make_delegating_from p;
     assign_cb this (Some b) ;;
     q ← get_ptr p;
     set_ptr this q ;;
     set_ptr p None).

(** [indirect::operator=(const indirect<U>& p)]. *)
Definition assign_copy_conv (this p : name) : M machine unit :=
  with_local [this; p] (λ tmp, indirect_copy tmp p)
    (λ tmp, assign_move_conv this tmp).

(** [indirect::swap]. *)
Definition swap (this p : name) : M machine unit :=
  noexcept
    (a ← get_ptr this; b ← get_ptr p;
     set_ptr this b ;; set_ptr p a ;;
     x ← get_cb this; y ← get_cb p;
     set_cb this y ;; set_cb p x).

(** [indirect<T>::emplace(ts...)]. *)
Definition emplace (T : class) (ts : A) (this : name) : M machine unit :=
  p ← lift (make_unique_direct T (construct T ts));
  q ← lift (ptr p);
  set_ptr this q ;;
  assign_cb this (Some p).

(** [indirect::clear]. *)
Definition clear (this : name) : M machine unit :=
  assign_cb this None ;; set_ptr this None.

(** [*ptr_]: a reference to the owned object, read here as the object. *)
Definition deref_ptr (this : name) : M machine object :=
  q ← get_ptr this;
  match q with
  | None => undefined
  | Some a => lift (deref a)
  end.

(** [const T* indirect::operator->() const]. *)
Definition op_arrow_const (this : name) : M machine pointer :=
  q ← get_ptr this;
  assert_ (bool_decide (is_Some q)) ;;
  ret q.

(** [const T& indirect::value() const]. *)
Definition value_const (this : name) : M machine object := deref_ptr this.

(** [const T& indirect::operator*() const]. *)
Definition op_star_const (this : name) : M machine object := deref_ptr this.

(** [T* indirect::operator->()]. *)
Definition op_arrow (this : name) : M machine pointer := get_ptr this.

(** [T& indirect::value()]. *)
Definition value (this : name) : M machine object := deref_ptr this.

(** [T& indirect::operator*()]. *)
Definition op_star (this : name) : M machine object := deref_ptr this.

(** [make_indirect<T>(ts...)]; the returned container is built in [result]. *)
Definition make_indirect (T : class) (ts : A) (result : name) : M machine unit :=
  with_local [result] indirect_default
    (λ p, b ← lift (make_unique_direct T (construct T ts));
          assign_cb p (Some b) ;;
          c ← get_cb p;
          q ← through c ptr;
          set_ptr p q ;;
          indirect_move result p).

(** The non-member [swap(indirect<T>&, indirect<T>&)]. *)
Definition swap_free (t u : name) : M machine unit :=
  noexcept (swap t u).

End model.

Arguments object V : clear implicits.
Arguments heap V : clear implicits.
Arguments copier V : clear implicits.
Arguments deleter V : clear implicits.
Arguments control_block V : clear implicits.
Arguments indirect V : clear implicits.
Arguments machine V : clear implicits.
Arguments with_local : simpl never.
Arguments default_copier : simpl never.
Arguments default_deleter : simpl never.

(** ** Properties of containers and blocks that the statements speak of *)

Section properties.
Context {V A : Type} `{!World V A}.

(** The class invariant of the data model, for a container [i] in a heap
    [h]: [ptr_] is null exactly when [cb_] is, and otherwise [ptr_] is the
    pointer the block reports. *)
Definition invariant (h : heap V) (i : indirect V) : Prop :=
  (ptr_ i = None ↔ cb_ i = None) ∧
  ∀ b, cb_ i = Some b → ptr b h = Ok (ptr_ i) h.

(** [holds cs b a U v]: among the live objects [cs], the block [b] owns
    the object at [a], whose dynamic type is [U] and whose state is [v],
    and the type recorded in [b] for cloning is [U] as well.  This is what
    the assertion of the adopting constructor (on a polymorphic class, in
    a debug build) and in-place construction establish. *)
Inductive holds (cs : gmap addr (object V)) :
    control_block V → addr → class → V → Prop :=
| holds_pointer a U v d :
    cs !! a = Some (Object U v) →
    holds cs (pointer_control_block (Some a) (default_copier U) d) a U v
| holds_direct a U v :
    cs !! a = Some (Object U v) →
    holds cs (direct_control_block U a) a U v
| holds_delegating b a U v :
    holds cs b a U v →
    holds cs (delegating_control_block (Some b)) a U v.

(** Blocks that keep their object inline, possibly behind delegating
    blocks: what [make_indirect] and [emplace] build, and conversions of
    it. *)
Fixpoint inline (b : control_block V) : Prop :=
  match b with
  | pointer_control_block _ _ _ => False
  | direct_control_block _ _ => True
  | delegating_control_block delegate_ =>
      match delegate_ with
      | None => False
      | Some d => inline d
      end
  end.

(** Blocks as the constructors of [indirect] make them when clients keep
    to the default copier: a pointer-adopting block holds a non-null
    pointer, a delegating block a non-null delegate. *)
Fixpoint regular (b : control_block V) : Prop :=
  match b with
  | pointer_control_block p_ c_ _ => is_Some p_ ∧ ∃ U, c_ = default_copier U
  | direct_control_block _ _ => True
  | delegating_control_block delegate_ =>
      match delegate_ with
      | None => False
      | Some d => regular d
      end
  end.

(** The class invariant on regular blocks, free of the heap. *)
Definition sound (i : indirect V) : Prop :=
  match cb_ i with
  | None => ptr_ i = None
  | Some b => regular b ∧ is_Some (ptr_ i) ∧ ∀ h, ptr b h = Ok (ptr_ i) h
  end.

Definition all_sound (s : machine V) : Prop :=
  ∀ x i, vars s !! x = Some i → sound i.

(** Induction on blocks that goes through the delegate. *)
Fixpoint control_block_ind' (P : control_block V → Prop)
    (Hpointer : ∀ p_ c_ d_, P (pointer_control_block p_ c_ d_))
    (Hdirect : ∀ U u_, P (direct_control_block U u_))
    (Hnull : P (delegating_control_block None))
    (Hdelegating : ∀ d, P d → P (delegating_control_block (Some d)))
    (b : control_block V) : P b :=
  match b with
  | pointer_control_block p_ c_ d_ => Hpointer p_ c_ d_
  | direct_control_block U u_ => Hdirect U u_
  | delegating_control_block None => Hnull
  | delegating_control_block (Some d) =>
      Hdelegating d
        (control_block_ind' P Hpointer Hdirect Hnull Hdelegating d)
  end.

(** The objects a block answers for. *)
Fixpoint footprint (b : control_block V) : gset addr :=
  match b with
  | pointer_control_block p_ _ _ =>
      match p_ with
      | None => ∅
      | Some a => {[a]}
      end
  | direct_control_block _ u_ => {[u_]}
  | delegating_control_block delegate_ =>
      match delegate_ with
      | None => ∅
      | Some d => footprint d
      end
  end.

(** A live object that no container in scope answers for. *)
Definition leaked (s : machine V) (a : addr) : Prop :=
  a ∈ dom (cells (memory s)) ∧
  ∀ x i b, vars s !! x = Some i → cb_ i = Some b → a ∉ footprint b.

(** Blocks that release their object with the default deleter at every
    pointer-adopting layer. *)
Fixpoint default_deleted (b : control_block V) : Prop :=
  match b with
  | pointer_control_block _ _ d_ => d_ = default_deleter
  | direct_control_block _ _ => True
  | delegating_control_block delegate_ =>
      match delegate_ with
      | None => True
      | Some d => default_deleted d
      end
  end.

(** [owner cs i a U v]: the container [i] is a well-kept owner of the
    object at [a]: its cached pointer is [a], its block holds the object
    (of dynamic type [U] and state [v]) and releases it by default. *)
Definition owner (cs : gmap addr (object V)) (i : indirect V)
    (a : addr) (U : class) (v : V) : Prop :=
  ∃ b, i = Indirect (Some a) (Some b) ∧ holds cs b a U v ∧ default_deleted b.

End properties.

(** ** Concrete worlds and machines, used to run the model *)

(** Integer-like classes: [T(n)] holds [n], copies are faithful. *)
Definition int_world (dbg : bool) (ok : nat → bool) : World Z Z := {|
  construct := λ _ n, Some n;
  copy_construct := λ _ v, Some v;
  polymorphic := λ _, false;
  alloc_ok := ok;
  debug := dbg
|}.

(** A class whose constructors throw. *)
Definition throwing_world : World Z Z := {|
  construct := λ _ _, None;
  copy_construct := λ _ _, None;
  polymorphic := λ _, false;
  alloc_ok := λ _, true;
  debug := true
|}.

(** A two-class hierarchy: the state of an object is the list of its
    fields, ["Derived"] has two fields and every other class one; a
    constructor of [U] keeps the fields of [U], so that copying a
    ["Derived"] through ["Base"] slices.  In [shapes_world] the classes
    are polymorphic, in [structs_world] they have no virtual function. *)
Definition fields (U : class) : nat :=
  if String.eqb U "Derived" then 2 else 1.

Definition shapes_world (dbg : bool) (ok : nat → bool) : World (list Z) (list Z) := {|
  construct := λ U ts, Some (take (fields U) ts);
  copy_construct := λ U v, Some (take (fields U) v);
  polymorphic := λ _, true;
  alloc_ok := ok;
  debug := dbg
|}.

Definition structs_world (dbg : bool) (ok : nat → bool) : World (list Z) (list Z) := {|
  construct := λ U ts, Some (take (fields U) ts);
  copy_construct := λ U v, Some (take (fields U) v);
  polymorphic := λ _, false;
  alloc_ok := ok;
  debug := dbg
|}.

Definition always : nat → bool := λ _, true.

(** The allocator serves one request, then refuses. *)
Definition only_first : nat → bool := λ n, bool_decide (n = 0).

Definition empty_indirect {V} : indirect V := Indirect None None.


(** One empty container, named [0]. *)
Definition one_empty {V} : machine V :=
  Machine (Heap ∅ 0) {[ 0 := empty_indirect ]}.

(** Two empty containers, named [0] and [1]. *)
Definition two_empty {V} : machine V :=
  Machine (Heap ∅ 0) {[ 0 := empty_indirect; 1 := empty_indirect ]}.

(** The container that the default strategies make of a pointer to a
    ["Derived"] at address [a]. *)
Definition derived_at (W : World (list Z) (list Z)) (a : addr) : indirect (list Z) :=
  Indirect (Some a)
    (Some (pointer_control_block (Some a)
             (@default_copier _ _ W "Derived") default_deleter)).

(** Container [0] has adopted a ["Derived"] at address [0]; container [1]
    is empty. *)
Definition adopted_derived (W : World (list Z) (list Z)) : machine (list Z) :=
  Machine (Heap {[ 0 := Object "Derived" [1; 2]%Z ]} 0)
          {[ 0 := derived_at W 0; 1 := empty_indirect ]}.

(** The container made in place of an integer at address [a]. *)
Definition int_at (a : addr) : indirect Z :=
  Indirect (Some a) (Some (direct_control_block "int" a)).

(** Container [0] holds an integer built in place, container [1] another. *)
Definition two_ints : machine Z :=
  Machine (Heap {[ 0 := Object "int" 5%Z; 1 := Object "int" 7%Z ]} 2)
          {[ 0 := int_at 0; 1 := int_at 1 ]}.

(** An integer lives at address [0]; no container is in scope. *)
Definition loose_int : machine Z :=
  Machine (Heap {[ 0 := Object "int" 5%Z ]} 0) ∅.

(** The worlds the examples run in. *)
Definition plain_ints : World Z Z := int_world true always.
Definition plain_shapes : World (list Z) (list Z) := shapes_world true always.
Definition starved_shapes : World (list Z) (list Z) := shapes_world true only_first.
Definition release_shapes : World (list Z) (list Z) := shapes_world false always.
Definition plain_structs : World (list Z) (list Z) := structs_world true always.

(** The allocator serves two requests, then refuses; and one that
    refuses everything. *)
Definition first_two : nat → bool := λ n, bool_decide (n < 2).
Definition never : nat → bool := λ _, false.

Definition wrapper_starved_shapes : World (list Z) (list Z) :=
  shapes_world true first_two.
Definition no_storage_ints : World Z Z := int_world true never.

(** A copier that returns a null pointer. *)
Definition null_copier {V} : copier V := λ _, ret None.

(** Container [0] has adopted the integer at address [0] with a copier
    that returns null. *)
Definition null_copied : machine Z :=
  Machine (Heap {[ 0 := Object "int" 5%Z ]} 0)
          {[ 0 := Indirect (Some 0)
                    (Some (pointer_control_block (Some 0) null_copier
                             default_deleter)) ]}.

(** Container [0] has adopted the integer at address [0] with the default
    strategies. *)
Definition adopted_int (W : World Z Z) : machine Z :=
  Machine (Heap {[ 0 := Object "int" 5%Z ]} 1)
          {[ 0 := Indirect (Some 0)
                    (Some (pointer_control_block (Some 0)
                             (@default_copier _ _ W "int") default_deleter)) ]}.

(** A ["Derived"] lives at address [0]; no container is in scope. *)
Definition loose_derived : machine (list Z) :=
  Machine (Heap {[ 0 := Object "Derived" [1; 2]%Z ]} 0) ∅.

(** ** Running the monad *)

Section basics.
Context {V A : Type} `{!World V A}.
Implicit Types (s : machine V) (h : heap V) (i : indirect V) (b : control_block V).

Lemma indirect_eta i : Indirect (ptr_ i) (cb_ i) = i.
Proof. by destruct i. Qed.

(** A local lives under a name that is new to the frame and differs from
    the names the function speaks of. *)
Lemma with_local_run {B} (others : list name) ctor
    (body : name → M (machine V) B) s :
  ∃ x, (x ∉ others) ∧ (vars s !! x = None) ∧
       with_local others ctor body s
       = bind (ctor x)
           (λ _, r ← on_throw (body x) (indirect_dtor x);
                 indirect_dtor x ;; ret r) s.
Proof.
  exists (fresh (list_to_set others ∪ dom (vars s) : gset name)).
  pose proof (is_fresh (list_to_set others ∪ dom (vars s) : gset name)) as Hf.
  split; [|split]; [| |done].
  - intros Hin. apply Hf. set_solver.
  - apply not_elem_of_dom. set_solver.
Qed.

End basics.

(** Symbolic execution of straight-line code: unfold the monad, resolve
    the lookups in the frame and in the heap. *)
Ltac lookups :=
  first
    [ rewrite lookup_insert_eq
    | rewrite lookup_insert_ne by congruence
    | rewrite lookup_delete_eq
    | rewrite lookup_delete_ne by congruence
    | match goal with
      | H : ?m !! ?k = _ |- context [?m !! ?k] => rewrite H
      end ].

Ltac unfold_ops :=
  unfold indirect_default, indirect_adopt, indirect_copy, indirect_move,
    indirect_move_conv, assign_copy, assign_move, assign_move_conv, swap_free,
    swap, emplace, clear, op_bool, empty_, op_arrow_const, value_const,
    op_star_const, op_arrow, value, op_star, init;
  unfold adopt_clone_of, make_delegating_from, assert_typeid, typeid_of,
    deref_ptr, through, constructing;
  unfold indirect_dtor, release, assign_cb;
  unfold get_ptr, set_ptr, get_cb, set_cb;
  unfold load, store, forget, lift, make_unique, make_unique_direct, new_,
    operator_new, deref, delete_, assert_, noexcept, on_throw, bind, ret,
    throw, undefined, assert_fail.

Ltac run := repeat first [ lookups | progress cbn | progress unfold_ops ].

(** Soundness of a frame given by updates of a sound frame: look the
    name up, last update first. *)
Ltac sound_frame Hs :=
  let y := fresh "y" in
  let j := fresh "j" in
  let Hy := fresh "Hy" in
  intros y j Hy; cbn in Hy;
  repeat (rewrite lookup_insert in Hy; case_decide; simplify_eq);
  try done; try (by eapply Hs); try (cbn; by eauto).

(** Name the local of the [with_local] at the head of the goal. *)
Ltac open_local p Hp Hvp :=
  match goal with
  | |- context [with_local ?o ?c ?b ?s] =>
      destruct (with_local_run o c b s) as (p & Hp & Hvp & ->)
  end.

Ltac frame_eq :=
  apply map_eq; intros ?k;
  repeat match goal with
         | |- context [<[?x := _]> _ !! ?k] =>
             destruct (decide (x = k)) as [<-|];
             [ rewrite ?lookup_insert_eq; rewrite ?lookup_insert_ne by congruence
             | rewrite ?(lookup_insert_ne _ x k) by congruence ]
         end;
  rewrite ?lookup_insert_eq; try done.

(** ** Moves and swaps: ownership changes hands, the heap is not touched *)

Section moves.
Context {V A : Type} `{!World V A}.
Implicit Types (s : machine V) (h : heap V) (a b : name) (ia ib : indirect V).

(** Self-move-assignment is the guarded no-op. *)
Lemma assign_move_self s a : assign_move a a s = Ok () s.
Proof. unfold assign_move, noexcept, ret. by rewrite bool_decide_eq_true_2. Qed.


(** [swap] exchanges two records of the frame and nothing else. *)
Lemma swap_run s a b ia ib :
  vars s !! a = Some ia →
  vars s !! b = Some ib →
  swap a b s = Ok () (Machine (memory s) (<[b := ia]> (<[a := ib]> (vars s)))).
Proof.
  intros Ha Hb. destruct s as [h vs]; cbn in *.
  destruct (decide (a = b)) as [->|Hne].
  - assert (ia = ib) as -> by congruence.
    unfold_ops. run. do 2 f_equal. rewrite indirect_eta. frame_eq.
  - unfold_ops. run. do 2 f_equal. rewrite !indirect_eta. frame_eq.
Qed.

(** C8. [swap(a, b)] exchanges the control blocks and cached pointers of
    [a] and [b] and leaves the heap as it was (nothing is cloned, no
    storage is requested); swapping twice gives back the machine one
    started from.  The member and the non-member function agree. *)
Theorem swap_is_involutive s a b ia ib :
  vars s !! a = Some ia →
  vars s !! b = Some ib →
  let swapped := Machine (memory s) (<[b := ia]> (<[a := ib]> (vars s))) in
  swap a b s = Ok () swapped ∧
  swap a b swapped = Ok () s ∧
  swap_free a b s = Ok () swapped ∧
  swap_free a b swapped = Ok () s.
Proof.
  intros Ha Hb swapped.
  pose proof (swap_run s a b ia ib Ha Hb) as E1. fold swapped in E1.
  assert (E2 : swap a b swapped = Ok () s).
  { destruct s as [h vs]; cbn in *. subst swapped.
    destruct (decide (a = b)) as [->|Hne].
    - assert (ia = ib) as -> by congruence.
      rewrite (swap_run _ b b ib ib) by (cbn; by simplify_map_eq).
      cbn. do 2 f_equal. apply map_eq; intros k.
      destruct (decide (k = b)) as [->|]; by simplify_map_eq.
    - rewrite (swap_run _ a b ib ia) by (cbn; by simplify_map_eq).
      cbn. do 2 f_equal. apply map_eq; intros k.
      destruct (decide (k = a)) as [->|]; [by simplify_map_eq|].
      destruct (decide (k = b)) as [->|]; by simplify_map_eq. }
  repeat split; try done.
  - unfold swap_free, noexcept. by rewrite E1.
  - unfold swap_free, noexcept. by rewrite E2.
Qed.

End moves.

(** ** Accessors and the adopting constructor *)

Section accessors.
Context {V A : Type} `{!World V A}.
Implicit Types (s : machine V) (h : heap V) (x this : name).

(** C4, as the code has it.  On an empty container only the read-only
    member access [operator->() const] is guarded by an assertion: it
    aborts in a debug build and returns the null cached pointer otherwise.
    The mutable [operator->] returns the null cached pointer unchecked, and
    [operator*] and [value()], in both forms, dereference the null pointer
    without any assertion, whatever the build. *)
Theorem accessors_on_empty s x :
  vars s !! x = Some empty_indirect →
  op_arrow_const x s = (if debug then AssertFail else Ok None s) ∧
  op_arrow x s = Ok None s ∧
  op_star_const x s = Undefined ∧
  op_star x s = Undefined ∧
  value_const x s = Undefined ∧
  value x s = Undefined.
Proof.
  intros Hx. repeat split; unfold_ops; run; try done.
  by destruct debug.
Qed.

(** C7. The adopting constructor [indirect(U* u, C copier, D deleter)]:
    a null [u] gives an empty container.  For a non-null [u] the
    assertion compares [typeid( *u )] with [typeid(U)]: in a debug build
    and for a polymorphic [U] the constructor aborts unless the dynamic
    type of [*u] is exactly [U]; in a release build, and for a [U] without
    virtual functions in any build, nothing is checked.  Past the
    assertion the container points at [u] and owns a
    [pointer_control_block] that holds [u] together with the copier and
    the deleter it was given. *)
Theorem adopt_by_pointer U (u : pointer) (c : copier V) (d : deleter V) this s :
  (u = None →
   indirect_adopt U u c d this s
   = Ok () (Machine (memory s) (<[this := empty_indirect]> (vars s)))) ∧
  (∀ a o, u = Some a → debug = true → polymorphic U = true →
          cells (memory s) !! a = Some o → typeid o ≠ U →
          indirect_adopt U u c d this s = AssertFail) ∧
  (∀ a, u = Some a →
        (debug = true → polymorphic U = true →
         ∃ o, cells (memory s) !! a = Some o ∧ typeid o = U) →
        alloc_ok (allocs (memory s)) = true →
        indirect_adopt U u c d this s
        = Ok () (Machine (Heap (cells (memory s)) (S (allocs (memory s))))
                   (<[this := Indirect (Some a)
                                (Some (pointer_control_block (Some a) c d))]>
                      (vars s)))).
Proof.
  destruct s as [[cs n] vs]; cbn in *. split; [|split].
  - intros ->. unfold_ops. by run.
  - intros a o -> Hd Hp Ho Hty. unfold_ops. run. rewrite Hd, Hp. run.
    by rewrite bool_decide_eq_false_2.
  - intros a -> Hty Hok. unfold_ops. run.
    destruct debug; [destruct (polymorphic U)|].
    + destruct Hty as (o & Ho & <-); [done..|]. run.
      rewrite bool_decide_eq_true_2 by done. run. rewrite Hok. run.
      do 2 f_equal. frame_eq.
    + run. rewrite bool_decide_eq_true_2 by done. run. rewrite Hok. run.
      do 2 f_equal. frame_eq.
    + run. rewrite Hok. run. do 2 f_equal. frame_eq.
Qed.

End accessors.

(** ** In-place construction *)

Section in_place.
Context {V A : Type} `{!World V A}.
Implicit Types (s : machine V) (h : heap V) (x this : name).

(** C10. [emplace] gives the strong guarantee.  When the constructor of
    [T] throws, the exception leaves [emplace] and the machine it leaves
    behind has the frame and the objects it had before; more generally,
    whenever an exception leaves [emplace] (also [std::bad_alloc]), every
    container, the target among them, and every object are as they were:
    the new block is built before the old one is let go. *)
Theorem emplace_strong_guarantee T (ts : A) this s :
  (construct T ts = None →
   emplace T ts this s
   = Throw (Machine (Heap (cells (memory s)) (S (allocs (memory s)))) (vars s))) ∧
  (∀ s', emplace T ts this s = Throw s' →
         vars s' = vars s ∧ cells (memory s') = cells (memory s)).
Proof.
  destruct s as [[cs n] vs]; cbn. split.
  - intros Hc. unfold_ops. run. rewrite Hc. by destruct (alloc_ok n).
  - intros s'. unfold_ops. run.
    destruct (alloc_ok n); run; [|by intros [= <-]].
    destruct (construct T ts); run; [|by intros [= <-]].
    destruct (vs !! this) as [i|]; run; [|done].
    destruct (destroy_opt (cb_ i) _); by run.
Qed.

(** [make_indirect] when the constructor and the allocator succeed. *)
Lemma make_indirect_ok T (ts : A) x s v :
  construct T ts = Some v →
  alloc_ok (allocs (memory s)) = true →
  let a := fresh (dom (cells (memory s))) in
  make_indirect T ts x s
  = Ok () (Machine (Heap (<[a := Object T v]> (cells (memory s)))
                         (S (allocs (memory s))))
                   (<[x := Indirect (Some a) (Some (direct_control_block T a))]>
                      (vars s))).
Proof.
  intros Hc Hok. destruct s as [[cs n] vs]; cbn in *.
  unfold make_indirect.
  open_local p Hp Hvp.
  assert (p ≠ x) by set_solver. cbn in Hvp.
  unfold_ops. run. rewrite Hok, Hc. run. do 2 f_equal.
  apply map_eq; intros k.
  destruct (decide (k = p)) as [->|]; [by simplify_map_eq|].
  rewrite lookup_delete_ne by done.
  destruct (decide (k = x)) as [->|]; by simplify_map_eq.
Qed.

(** [emplace] when the constructor and the allocator succeed: the new
    object is in place before the previous block is destroyed. *)
Lemma emplace_ok T (ts : A) x s v i h' :
  construct T ts = Some v →
  alloc_ok (allocs (memory s)) = true →
  vars s !! x = Some i →
  let a := fresh (dom (cells (memory s))) in
  destroy_opt (cb_ i)
    (Heap (<[a := Object T v]> (cells (memory s))) (S (allocs (memory s))))
  = Ok () h' →
  emplace T ts x s
  = Ok () (Machine h' (<[x := Indirect (Some a) (Some (direct_control_block T a))]>
                         (vars s))).
Proof.
  intros Hc Hok Hx a Hd. destruct s as [[cs n] vs]; cbn in *.
  unfold_ops. run. rewrite Hok, Hc. run. fold a. rewrite Hd. run.
  do 2 f_equal. frame_eq.
Qed.

End in_place.

Section in_place_int.
Context `{!World Z Z}.
Implicit Types (s : machine Z) (x : name).


End in_place_int.

(** ** Cloning *)

Section cloning.
Context {V A : Type} `{!World V A}.
Implicit Types (s : machine V) (h : heap V) (cs : gmap addr (object V)).
Implicit Types (b blk : control_block V) (a : addr) (x this : name).

(** [ptr] reads the block and nothing else. *)
Lemma ptr_pure b h q h' : ptr b h = Ok q h' → h' = h ∧ ∀ h2, ptr b h2 = Ok q h2.
Proof.
  induction b as [p_ c_ d_|U u_| |d IH] using control_block_ind'; cbn.
  - by intros [= <- <-].
  - by intros [= <- <-].
  - done.
  - apply IH.
Qed.

Lemma ptr_cases b h : (∃ q, ptr b h = Ok q h) ∨ ptr b h = Undefined.
Proof.
  induction b as [p_ c_ d_|U u_| |d IH] using control_block_ind'; cbn;
    eauto.
Qed.

Lemma holds_lookup cs b a U v : holds cs b a U v → cs !! a = Some (Object U v).
Proof. by induction 1. Qed.

Lemma holds_ptr cs b a U v h : holds cs b a U v → ptr b h = Ok (Some a) h.
Proof. induction 1; by cbn. Qed.

(** [new U(t)] by the default copier, on a live object. *)
Lemma default_copier_run U a cs n o :
  cs !! a = Some o →
  default_copier U a (Heap cs n)
  = if alloc_ok n
    then match copy_construct U (state o) with
         | Some v' => Ok (Some (fresh (dom cs)))
                        (Heap (<[fresh (dom cs) := Object U v']> cs) (S n))
         | None => Throw (Heap cs (S n))
         end
    else Throw (Heap cs (S n)).
Proof.
  intros Ha. unfold default_copier. unfold_ops. run.
  destruct (alloc_ok n); [|done]. by destruct (copy_construct _ _).
Qed.

(** What a successful clone of a block produces: one new object, at an
    address that was free, built by the copy constructor of the recorded
    type from the state of the source, and owned by the new block. *)
Lemma clone_holds h b a U v b' h' :
  holds (cells h) b a U v →
  clone b h = Ok b' h' →
  ∃ v', copy_construct U v = Some v' ∧
        cells h !! fresh (dom (cells h)) = None ∧
        cells h' = <[fresh (dom (cells h)) := Object U v']> (cells h) ∧
        holds (cells h') b' (fresh (dom (cells h))) U v'.
Proof.
  intros Hb. revert b' h'. destruct h as [cs n]; cbn in *.
  assert (Hnew : cs !! fresh (dom cs) = None).
  { apply not_elem_of_dom, is_fresh. }
  revert n.
  induction Hb as [a U v d Ha|a U v Ha|b a U v Hb IH]; intros n b' h'.
  - cbn. unfold assert_, bind, ret.
    rewrite (default_copier_run _ _ _ _ _ Ha). cbn.
    destruct (alloc_ok n); [|done].
    destruct (copy_construct U v) as [v'|]; [|done].
    unfold_ops. cbn. destruct (alloc_ok (S n)); [|done].
    intros [= <- <-]. exists v'. cbn. repeat split; try done.
    constructor. by rewrite lookup_insert_eq.
  - cbn. unfold_ops. run.
    destruct (alloc_ok n); [|done].
    destruct (copy_construct U v) as [v'|]; [|done].
    intros [= <- <-]. exists v'. cbn. repeat split; try done.
    constructor. by rewrite lookup_insert_eq.
  - cbn. unfold bind at 1.
    destruct (clone b (Heap cs n)) as [d' [cs1 n1]| | | |] eqn:E; try done.
    destruct (IH _ _ _ E) as (v' & Hv & _ & Hcs & Hd). cbn in *.
    unfold_ops. cbn. destruct (alloc_ok n1); [|by destruct (destroy d' _)].
    intros [= <- <-]. exists v'. cbn. repeat split; try done.
    by constructor.
Qed.

(** A clone succeeds as soon as the copy constructor of the recorded
    type does and the allocator serves what is asked from now on. *)
Lemma clone_succeeds h b a U v v' :
  holds (cells h) b a U v →
  copy_construct U v = Some v' →
  (∀ n, allocs h ≤ n → alloc_ok n = true) →
  ∃ b' h', clone b h = Ok b' h' ∧ allocs h ≤ allocs h'.
Proof.
  intros Hb Hv. destruct h as [cs n]; cbn in *. revert n.
  induction Hb as [a U v d Ha|a U v Ha|b a U v Hb IH]; intros n Hok.
  - cbn. unfold assert_, bind, ret.
    rewrite (default_copier_run _ _ _ _ _ Ha). cbn.
    rewrite (Hok n), Hv by lia. unfold_ops. cbn. rewrite (Hok (S n)) by lia.
    eexists _, _. split; [done|]. cbn. lia.
  - cbn. unfold_ops. run. rewrite (Hok n), Hv by lia.
    eexists _, _. split; [done|]. cbn. lia.
  - destruct (IH Hv n Hok) as (d' & [cs1 n1] & E & Hle). cbn in *.
    unfold bind at 1. rewrite E. unfold_ops. cbn. rewrite (Hok n1) by lia.
    eexists _, _. split; [done|]. cbn. lia.
Qed.

(** Destroying an inline block gives back exactly its object. *)
Lemma destroy_inline cs n b a U v :
  holds cs b a U v →
  inline b →
  destroy b (Heap cs n) = Ok () (Heap (delete a cs) n).
Proof.
  induction 1 as [a U v d Ha|a U v Ha|b a U v Hb IH]; cbn; [done| |done].
  intros _. unfold_ops. by run.
Qed.

Lemma clone_inline h b a U v b' h' :
  holds (cells h) b a U v → inline b → clone b h = Ok b' h' → inline b'.
Proof.
  intros Hb. revert b' h'. destruct h as [cs n]; cbn in *. revert n.
  induction Hb as [a U v d Ha|a U v Ha|b a U v Hb IH]; intros n b' h' Hin;
    [done| |].
  - cbn. unfold_ops. run. destruct (alloc_ok n); [|done].
    destruct (copy_construct U v); [|done]. by intros [= <- <-].
  - cbn. unfold bind at 1.
    destruct (clone b (Heap cs n)) as [d' [cs1 n1]| | | |] eqn:E; try done.
    unfold_ops. cbn. destruct (alloc_ok n1); [|by destruct (destroy d' _)].
    intros [= <- <-]. cbn. eauto.
Qed.

(** The sibling paths of [pointer_control_block::clone] do not leak: when
    the clone of an inline block throws, whether from the allocator or
    from the copy constructor, the live objects are those there were. *)
Lemma clone_inline_throws_clean h b a U v h' :
  holds (cells h) b a U v →
  inline b →
  clone b h = Throw h' →
  cells h' = cells h.
Proof.
  intros Hb. revert h'. destruct h as [cs n]; cbn in *.
  assert (Hnew : cs !! fresh (dom cs) = None).
  { apply not_elem_of_dom, is_fresh. }
  revert n.
  induction Hb as [a U v d Ha|a U v Ha|b a U v Hb IH]; intros n h' Hin;
    [done| |].
  - cbn. unfold_ops. run. destruct (alloc_ok n); [|by intros [= <-]].
    destruct (copy_construct U v); [done|]. by intros [= <-].
  - cbn. unfold bind at 1.
    destruct (clone b (Heap cs n)) as [d' [cs1 n1]| h1 | | |] eqn:E; try done;
      [|intros [= <-]; by eapply IH].
    destruct (clone_holds (Heap cs n) _ _ _ _ _ _ Hb E)
      as (v' & _ & _ & Hcs & Hd').
    pose proof (clone_inline (Heap cs n) _ _ _ _ _ _ Hb Hin E) as Hin'.
    cbn in Hcs, Hd'.
    unfold_ops. cbn. destruct (alloc_ok n1); [done|].
    rewrite (destroy_inline _ _ _ _ _ _ Hd' Hin'). intros [= <-]. cbn.
    rewrite Hcs, delete_insert_eq. by apply delete_id.
Qed.

(** Where [holds] comes from.  In a debug build the assertion of the
    adopting constructor lets through only pointers to a polymorphic class
    whose dynamic type is the recorded one; in-place construction records
    the type it builds. *)
Lemma adopt_records_dynamic_type U a (d : deleter V) this s s' :
  debug = true →
  polymorphic U = true →
  indirect_adopt U (Some a) (default_copier U) d this s = Ok () s' →
  ∃ v, vars s' !! this
       = Some (Indirect (Some a)
                 (Some (pointer_control_block (Some a) (default_copier U) d))) ∧
       holds (cells (memory s'))
         (pointer_control_block (Some a) (default_copier U) d) a U v.
Proof.
  intros Hd Hp. destruct s as [[cs n] vs]. unfold_ops. run.
  rewrite Hd, Hp. run.
  destruct (cs !! a) as [[ty v]|] eqn:Ha; run; [|done].
  case_bool_decide as Hty; run; [|done]. cbn in Hty. subst ty.
  destruct (alloc_ok n); run; [|done].
  intros [= <-]. exists v. cbn. rewrite lookup_insert_eq. split; [done|].
  by constructor.
Qed.

Lemma make_indirect_records_dynamic_type T (ts : A) v this s :
  construct T ts = Some v →
  alloc_ok (allocs (memory s)) = true →
  ∃ s' a, make_indirect T ts this s = Ok () s' ∧
          vars s' !! this
          = Some (Indirect (Some a) (Some (direct_control_block T a))) ∧
          holds (cells (memory s')) (direct_control_block T a) a T v.
Proof.
  intros Hc Hok. rewrite (make_indirect_ok T ts this s v Hc Hok).
  eexists _, _. split; [done|]. cbn. rewrite !lookup_insert_eq.
  split; [done|]. apply holds_direct. by rewrite lookup_insert_eq.
Qed.

End cloning.

(** ** Copy construction and copy assignment *)

Section copying.
Context {V A : Type} `{!World V A}.
Implicit Types (s : machine V) (h : heap V) (cs : gmap addr (object V)).
Implicit Types (b blk : control_block V) (a : addr) (x this : name).

(** The copy constructor on a non-empty source, in full: the source's
    block is cloned and the clone adopted; when the clone throws, the
    object under construction is abandoned. *)
Lemma indirect_copy_run s this (p : name) ip blk :
  this ≠ p →
  vars s !! p = Some ip →
  cb_ ip = Some blk →
  indirect_copy this p s
  = match clone blk (memory s) with
    | Ok blk' h' =>
        match ptr blk' h' with
        | Ok q _ => Ok () (Machine h' (<[this := Indirect q (Some blk')]> (vars s)))
        | _ => Undefined
        end
    | Throw h' => Throw (Machine h' (delete this (vars s)))
    | AssertFail => AssertFail
    | Terminate => Terminate
    | Undefined => Undefined
    end.
Proof.
  intros Hne Hp Hcb. destruct s as [h vs], ip as [q0 c0]; cbn in *. subst c0.
  unfold_ops. run.
  destruct (clone blk h) as [blk' h'| h'| | |] eqn:E; run; try done.
  - destruct (ptr_cases blk' h') as [[q ->]| ->]; run; [|done].
    do 2 f_equal. frame_eq.
  - do 2 f_equal. apply map_eq; intros k.
    destruct (decide (k = this)) as [->|]; by simplify_map_eq.
Qed.

(** The copy constructor on an empty source. *)
Lemma indirect_copy_empty s this (p : name) ip :
  this ≠ p →
  vars s !! p = Some ip →
  cb_ ip = None →
  indirect_copy this p s
  = Ok () (Machine (memory s) (<[this := empty_indirect]> (vars s))).
Proof.
  intros Hne Hp Hcb. destruct s as [h vs], ip as [q0 c0]; cbn in *. subst c0.
  unfold_ops. by run.
Qed.

(** Copy assignment when the clone of the source's block throws: the
    exception leaves the assignment and no container has changed. *)
Lemma assign_copy_clone_throws s this (p : name) ip blk h' :
  p ≠ this →
  vars s !! p = Some ip →
  cb_ ip = Some blk →
  clone blk (memory s) = Throw h' →
  assign_copy this p s = Throw (Machine h' (vars s)).
Proof.
  intros Hne Hp Hcb E. destruct s as [h vs], ip as [q0 c0]; cbn in *. subst c0.
  unfold assign_copy. rewrite bool_decide_eq_false_2 by done.
  unfold_ops. run. rewrite E. by run.
Qed.

End copying.

Section deep_copy.
Context {V A : Type} `{!World V A}.
Implicit Types (s : machine V) (a b : name) (ia : indirect V).


End deep_copy.

(** ** Converting copies *)

Section converting.
Context {V A : Type} `{!World V A}.
Implicit Types (s : machine V) (h : heap V) (this : name).

(** The converting copy constructor on a non-empty source, in full: the
    source's block is cloned once and the clone put behind a delegating
    block; when the storage of the delegating block is refused, the clone
    is destroyed with the local that held it. *)
Lemma indirect_copy_conv_run s this (p : name) ip blk :
  this ≠ p →
  vars s !! p = Some ip →
  cb_ ip = Some blk →
  indirect_copy_conv this p s
  = match clone blk (memory s) with
    | Ok blk' h' =>
        match ptr blk' h' with
        | Ok q _ =>
            if alloc_ok (allocs h')
            then Ok () (Machine (Heap (cells h') (S (allocs h')))
                          (<[this := Indirect q
                                       (Some (delegating_control_block (Some blk')))]>
                             (vars s)))
            else match noexcept (destroy blk') (Heap (cells h') (S (allocs h'))) with
                 | Ok _ h'' => Throw (Machine h'' (delete this (vars s)))
                 | Throw _ => Terminate
                 | AssertFail => AssertFail
                 | Terminate => Terminate
                 | Undefined => Undefined
                 end
        | _ => Undefined
        end
    | Throw h' => Throw (Machine h' (delete this (vars s)))
    | AssertFail => AssertFail
    | Terminate => Terminate
    | Undefined => Undefined
    end.
Proof.
  intros Hne Hp Hcb. destruct s as [h vs]; cbn [memory vars] in *.
  unfold indirect_copy_conv, constructing.
  unfold bind at 1. unfold store at 1. cbn [memory vars]. unfold on_throw at 1.
  open_local tmp Htmp Hfresh. cbn [memory vars] in Hfresh.
  assert (tmp ≠ this ∧ tmp ≠ p) as [Ht1 Ht2] by set_solver.
  rewrite lookup_insert_ne in Hfresh by done.
  unfold bind at 1.
  rewrite (indirect_copy_run _ tmp p ip blk) by (cbn; by simplify_map_eq).
  cbn [memory vars].
  destruct (clone blk h) as [blk' [cs' n']| h1 | | |] eqn:E; try done.
  - destruct (ptr_cases blk' (Heap cs' n')) as [[q Eq]|Eq]; rewrite Eq;
      [|done].
    unfold_ops. run. destruct (alloc_ok n') eqn:Hok; run.
    + do 2 f_equal. apply map_eq; intros k.
      destruct (decide (k = tmp)) as [->|]; [by simplify_map_eq|].
      rewrite lookup_delete_ne by done.
      destruct (decide (k = this)) as [->|]; by simplify_map_eq.
    + destruct (destroy blk' _); run; try done.
      do 2 f_equal. apply map_eq; intros k.
      destruct (decide (k = this)) as [->|]; [by simplify_map_eq|].
      destruct (decide (k = tmp)) as [->|]; by simplify_map_eq.
  - unfold_ops. run. do 2 f_equal. apply map_eq; intros k.
    destruct (decide (k = this)) as [->|]; [by simplify_map_eq|].
    destruct (decide (k = tmp)) as [->|]; by simplify_map_eq.
Qed.

(** C2. Let [d] be a non-empty container whose block owns an object of
    dynamic type [Derived] and records [Derived] for cloning.  Converting
    copy construction of [b] from [d] (the container of the base type)
    followed by copy construction of [c] from [b]: whenever both complete,
    the object [c] owns has dynamic type [Derived], and its state is what
    the copy constructor of [Derived], applied twice, makes of the state
    of [d]'s object; no other copy constructor is involved.  Both steps do
    complete when the copy constructor of [Derived] does not throw and the
    allocator serves the requests made. *)
Theorem converted_copy_keeps_dynamic_type s (d b c : name) id blk
    (pa : addr) (Derived : class) (v : V) :
  d ≠ b →
  b ≠ c →
  vars s !! d = Some id →
  cb_ id = Some blk →
  ptr_ id = Some pa →
  holds (cells (memory s)) blk pa Derived v →
  (∀ s1 s2,
     indirect_copy_conv b d s = Ok () s1 →
     indirect_copy c b s1 = Ok () s2 →
     ∃ v' v'', copy_construct Derived v = Some v' ∧
               copy_construct Derived v' = Some v'' ∧
               op_bool c s2 = Ok true s2 ∧
               op_star c s2 = Ok (Object Derived v'') s2) ∧
  ((∀ w, is_Some (copy_construct Derived w)) →
   (∀ n, allocs (memory s) ≤ n → alloc_ok n = true) →
   ∃ s1 s2, indirect_copy_conv b d s = Ok () s1 ∧
            indirect_copy c b s1 = Ok () s2).
Proof.
  intros Hdb Hbc Hd Hcb Hpa Hb.
  rewrite (indirect_copy_conv_run s b d id blk) by done.
  split.
  - intros s1 s2.
    destruct (clone blk (memory s)) as [blk1 h1| | | |] eqn:E1; try done.
    destruct (clone_holds _ _ _ _ _ _ _ Hb E1) as (v' & Hv' & _ & _ & Hb1).
    rewrite (holds_ptr _ _ _ _ _ h1 Hb1).
    destruct (alloc_ok (allocs h1)); [|by destruct (noexcept _ _)].
    intros [= <-].
    rewrite (indirect_copy_run _ c b _ (delegating_control_block (Some blk1)))
      by (cbn; by simplify_map_eq).
    cbn [memory vars].
    destruct (clone (delegating_control_block (Some blk1)) _)
      as [blk2 h2| | | |] eqn:E2; try done.
    assert (Hb1' : holds (cells (Heap (cells h1) (S (allocs h1))))
                     (delegating_control_block (Some blk1))
                     (fresh (dom (cells (memory s)))) Derived v')
      by (by constructor).
    destruct (clone_holds _ _ _ _ _ _ _ Hb1' E2) as (v'' & Hv'' & _ & _ & Hb2).
    rewrite (holds_ptr _ _ _ _ _ h2 Hb2). intros [= <-].
    pose proof (holds_lookup _ _ _ _ _ Hb2) as Hlive. cbn in Hlive.
    exists v', v''. repeat split; try done; unfold_ops; by run.
  - intros Hcopy Hok.
    destruct (Hcopy v) as [v' Hv'].
    destruct (clone_succeeds _ _ _ _ _ _ Hb Hv' Hok) as (blk1 & h1 & E1 & Hle).
    destruct (clone_holds _ _ _ _ _ _ _ Hb E1) as (w & Hw & _ & _ & Hb1).
    assert (w = v') as -> by congruence.
    assert (Hb1' : holds (cells (Heap (cells h1) (S (allocs h1))))
                     (delegating_control_block (Some blk1))
                     (fresh (dom (cells (memory s)))) Derived v')
      by (by constructor).
    destruct (Hcopy v') as [v'' Hv''].
    destruct (clone_succeeds _ _ _ _ _ _ Hb1' Hv'') as (blk2 & h2 & E2 & _).
    { cbn. intros n Hn. apply Hok. lia. }
    destruct (clone_holds _ _ _ _ _ _ _ Hb1' E2) as (w & _ & _ & _ & Hb2).
    rewrite E1, (holds_ptr _ _ _ _ _ h1 Hb1), (Hok (allocs h1)) by done.
    eexists _, _. split; [done|].
    rewrite (indirect_copy_run _ c b _ (delegating_control_block (Some blk1)))
      by (cbn; by simplify_map_eq).
    cbn [memory vars].
    by rewrite E2, (holds_ptr _ _ _ _ _ h2 Hb2).
Qed.

(** Copying through the base instead would slice: the default copier of
    [Base] applied to any live object yields an object of dynamic type
    [Base]. *)
Lemma default_copier_of_base_slices (Base : class) (a : addr) h o q h' :
  cells h !! a = Some o →
  default_copier Base a h = Ok q h' →
  ∃ a' v', q = Some a' ∧ cells h' !! a' = Some (Object Base v').
Proof.
  intros Ha. destruct h as [cs n]; cbn in Ha.
  rewrite (default_copier_run _ _ _ _ _ Ha).
  destruct (alloc_ok n); [|done].
  destruct (copy_construct Base (state o)) as [v'|]; [|done].
  intros [= <- <-]. eexists _, v'. split; [done|]. cbn.
  by rewrite lookup_insert_eq.
Qed.

End converting.

(** ** The class invariant under the operations that keep it *)

Section keeping_the_invariant.
Context {V A : Type} `{!World V A}.
Implicit Types (s : machine V) (h : heap V) (this p x : name) (i : indirect V).

Lemma sound_invariant h i : sound i → invariant h i.
Proof.
  destruct i as [q [b|]]; unfold sound, invariant; cbn.
  - intros (_ & [a Ha] & Hptr). split.
    + split; intros Hq; [by rewrite Hq in Ha|done].
    + by intros ? [= <-].
  - intros ->. split; [done|]. by intros ? [=].
Qed.

(** The clone of a regular block is regular and reports a non-null
    pointer. *)
Lemma clone_regular b h b' h' :
  regular b →
  clone b h = Ok b' h' →
  regular b' ∧ ∃ a, ∀ h2, ptr b' h2 = Ok (Some a) h2.
Proof.
  revert h b' h'.
  induction b as [p_ c_ d_|U u_| |d IH] using control_block_ind';
    intros h b' h'; cbn.
  - intros ([a ->] & U & ->). unfold assert_, bind, ret.
    unfold default_copier at 1. unfold_ops. cbn.
    destruct (cells h !! a); [|done]. cbn.
    destruct (alloc_ok (allocs h)); [|done].
    destruct (copy_construct U _); [|done]. cbn.
    destruct (alloc_ok _); [|done]. intros [= <- <-]. cbn. eauto.
  - intros _. unfold_ops. cbn. destruct (cells h !! u_); [|done]. cbn.
    destruct (alloc_ok (allocs h)); [|done].
    destruct (copy_construct U _); [|done]. intros [= <- <-]. cbn. eauto.
  - done.
  - intros Hd. unfold bind at 1.
    destruct (clone d h) as [d' h1| | | |] eqn:E; try done.
    destruct (IH _ _ _ Hd E) as (Hd' & a & Ha).
    unfold_ops. cbn. destruct (alloc_ok _); [|by destruct (destroy d' _)].
    intros [= <- <-]. cbn. eauto.
Qed.

Lemma all_sound_insert (vs : gmap name (indirect V)) h h' x i :
  all_sound (Machine h vs) → sound i → all_sound (Machine h' (<[x := i]> vs)).
Proof.
  intros Hs Hi y j. cbn. rewrite lookup_insert. case_decide.
  - by intros [= <-].
  - apply Hs.
Qed.

(** Default construction, the adopting constructor with the default
    copier, copy and move construction, copy and move assignment, [swap],
    [emplace], [clear] and [make_indirect] keep every container sound,
    whenever they return.  So do the converting copy and move
    constructions from a source that is not empty. *)
Lemma indirect_default_keeps_sound s this s' :
  all_sound s → indirect_default this s = Ok () s' → all_sound s'.
Proof.
  destruct s as [h vs]. intros Hs. unfold_ops. run. intros [= <-].
  by apply (all_sound_insert vs h).
Qed.

Lemma indirect_adopt_keeps_sound U u (d : deleter V) s this s' :
  all_sound s →
  indirect_adopt U u (default_copier U) d this s = Ok () s' →
  all_sound s'.
Proof.
  destruct s as [[cs n] vs]. intros Hs.
  destruct u as [a|]; unfold_ops; run.
  - destruct debug; [destruct (polymorphic U)|]; run.
    + destruct (cs !! a); run; [|done].
      case_bool_decide; run; [|done].
      destruct (alloc_ok n); run; [|done]. intros [= <-].
      rewrite !insert_insert_eq.
      apply (all_sound_insert vs (Heap cs n)); [done|]. cbn. eauto.
    + rewrite bool_decide_eq_true_2 by done. run.
      destruct (alloc_ok n); run; [|done]. intros [= <-].
      rewrite !insert_insert_eq.
      apply (all_sound_insert vs (Heap cs n)); [done|]. cbn. eauto.
    + destruct (alloc_ok n); run; [|done]. intros [= <-].
      rewrite !insert_insert_eq.
      apply (all_sound_insert vs (Heap cs n)); [done|]. cbn. eauto.
  - intros [= <-]. by apply (all_sound_insert vs (Heap cs n)).
Qed.

Lemma indirect_copy_keeps_sound s this p s' :
  this ≠ p →
  all_sound s → indirect_copy this p s = Ok () s' → all_sound s'.
Proof.
  intros Hne Hs. destruct (vars s !! p) as [ip|] eqn:Hp.
  - pose proof (Hs p ip Hp) as Hip. unfold sound in Hip.
    destruct (cb_ ip) as [blk|] eqn:Hcb.
    + rewrite (indirect_copy_run s this p ip blk) by done.
      destruct (clone blk (memory s)) as [blk' h'| | | |] eqn:E; try done.
      destruct Hip as (Hreg & _).
      destruct (clone_regular _ _ _ _ Hreg E) as (Hreg' & a & Ha).
      rewrite Ha. intros [= <-]. destruct s as [h vs].
      apply (all_sound_insert vs h); [done|]. cbn. eauto.
    + rewrite (indirect_copy_empty s this p ip) by done. intros [= <-].
      destruct s as [h vs]. by apply (all_sound_insert vs h).
  - destruct s as [h vs]. cbn in Hp. unfold_ops. by run.
Qed.

Lemma indirect_move_keeps_sound s this p s' :
  this ≠ p →
  all_sound s → indirect_move this p s = Ok () s' → all_sound s'.
Proof.
  intros Hne Hs. destruct s as [h vs].
  destruct (vs !! p) as [ip|] eqn:Hp; unfold_ops; run; [|done].
  intros [= <-]. rewrite indirect_eta. sound_frame Hs.
Qed.

Lemma assign_copy_keeps_sound s this p s' :
  all_sound s → assign_copy this p s = Ok () s' → all_sound s'.
Proof.
  intros Hs. unfold assign_copy. case_bool_decide as Hne.
  { by intros [= <-]. }
  destruct s as [h vs].
  destruct (vs !! p) as [[q [blk|]]|] eqn:Hp; unfold_ops; run; [| |done].
  - pose proof (Hs p _ Hp) as (Hreg & _).
    destruct (clone blk h) as [blk' h'| | | |] eqn:E; run; try done.
    destruct (clone_regular _ _ _ _ Hreg E) as (Hreg' & a & Ha).
    rewrite Ha. run.
    destruct (vs !! this) as [it|] eqn:Ht; run; [|done].
    destruct (destroy_opt (cb_ it) h') as [[] ?| | | |]; run; try done.
    intros [= <-]. sound_frame Hs.
  - destruct (vs !! this) as [it|] eqn:Ht; run; [|done].
    destruct (destroy_opt (cb_ it) h) as [[] ?| | | |]; run; try done.
    intros [= <-]. sound_frame Hs.
Qed.

Lemma assign_move_keeps_sound s this p s' :
  all_sound s → assign_move this p s = Ok () s' → all_sound s'.
Proof.
  intros Hs. unfold assign_move, noexcept at 1. case_bool_decide as Hne.
  { by intros [= <-]. }
  destruct s as [h vs].
  destruct (vs !! p) as [ip|] eqn:Hp; unfold_ops; run; [|done].
  destruct (vs !! this) as [it|] eqn:Ht; run; [|done].
  destruct (destroy_opt (cb_ it) h) as [[] ?| | | |]; run; try done.
  intros [= <-]. rewrite indirect_eta. sound_frame Hs.
Qed.

Lemma swap_keeps_sound s this p s' :
  all_sound s → swap this p s = Ok () s' → all_sound s'.
Proof.
  intros Hs. destruct s as [h vs].
  destruct (vs !! this) as [it|] eqn:Ht; [|unfold_ops; by run].
  destruct (vs !! p) as [ip|] eqn:Hp; [|unfold_ops; by run].
  rewrite (swap_run (Machine h vs) this p it ip Ht Hp).
  intros [= <-]. sound_frame Hs.
Qed.

Lemma emplace_keeps_sound T (ts : A) s this s' :
  all_sound s → emplace T ts this s = Ok () s' → all_sound s'.
Proof.
  intros Hs. destruct s as [[cs n] vs]. unfold_ops. run.
  destruct (alloc_ok n); run; [|done].
  destruct (construct T ts); run; [|done].
  destruct (vs !! this) as [it|] eqn:Ht; run; [|done].
  destruct (destroy_opt (cb_ it) _) as [[] ?| | | |]; run; try done.
  intros [= <-]. sound_frame Hs.
Qed.

Lemma clear_keeps_sound s this s' :
  all_sound s → clear this s = Ok () s' → all_sound s'.
Proof.
  intros Hs. destruct s as [h vs]. unfold_ops. run.
  destruct (vs !! this) as [it|] eqn:Ht; run; [|done].
  destruct (destroy_opt (cb_ it) h) as [[] ?| | | |]; run; try done.
  intros [= <-]. sound_frame Hs.
Qed.

Lemma make_indirect_keeps_sound T (ts : A) v s this :
  construct T ts = Some v →
  alloc_ok (allocs (memory s)) = true →
  all_sound s →
  ∃ s', make_indirect T ts this s = Ok () s' ∧ all_sound s'.
Proof.
  intros Hc Hok Hs. rewrite (make_indirect_ok T ts this s v Hc Hok).
  eexists. split; [done|]. destruct s as [h vs]. sound_frame Hs.
Qed.

(** The converting copy and move constructions keep every container
    sound when the source is not empty; on an empty source they do not
    (see [converting_from_empty_breaks_invariant]). *)
Lemma indirect_copy_conv_keeps_sound s this p ip s' :
  this ≠ p →
  vars s !! p = Some ip →
  is_Some (cb_ ip) →
  all_sound s → indirect_copy_conv this p s = Ok () s' → all_sound s'.
Proof.
  intros Hne Hp [blk Hcb] Hs.
  rewrite (indirect_copy_conv_run s this p ip blk) by done.
  pose proof (Hs p ip Hp) as Hip. unfold sound in Hip. rewrite Hcb in Hip.
  destruct Hip as (Hreg & _).
  destruct (clone blk (memory s)) as [blk' h'| | | |] eqn:E; try done.
  destruct (clone_regular _ _ _ _ Hreg E) as (Hreg' & a & Ha).
  rewrite Ha. destruct (alloc_ok (allocs h')); [|by destruct (noexcept _ _)].
  intros [= <-]. destruct s as [h vs]. sound_frame Hs.
Qed.

Lemma indirect_move_conv_keeps_sound s this p ip s' :
  this ≠ p →
  vars s !! p = Some ip →
  is_Some (cb_ ip) →
  all_sound s → indirect_move_conv this p s = Ok () s' → all_sound s'.
Proof.
  intros Hne Hp [blk Hcb] Hs. destruct s as [[cs n] vs]. cbn in Hp.
  pose proof (Hs p ip Hp) as Hip. unfold sound in Hip. rewrite Hcb in Hip.
  destruct Hip as (Hreg & [a Ha] & Hptr). destruct ip as [q c]; cbn in *.
  subst q c. unfold_ops. run.
  destruct (alloc_ok n); run; [|done].
  intros [= <-]. sound_frame Hs.
Qed.

End keeping_the_invariant.

(** ** Where the code departs from the data model *)

Section departures.
Context {V A : Type} `{!World V A}.
Implicit Types (s : machine V) (h : heap V) (this p : name).

(** C1 fails for the converting operations on an empty source.  The
    same-type copy constructor returns early on an empty source; the
    converting copy constructor, the converting move constructor and the
    converting assignments do not, and wrap the source's null block in a
    [delegating_control_block].  The target then has a null cached pointer
    and a non-null control block: it reports itself non-empty while
    pointing at nothing, the class invariant is broken, and copying the
    target calls [clone] through the null delegate. *)
Theorem converting_from_empty_breaks_invariant s this p (target : name) :
  this ≠ p →
  target ≠ p →
  vars s !! p = Some empty_indirect →
  vars s !! target = Some empty_indirect →
  alloc_ok (allocs (memory s)) = true →
  let broken : indirect V := Indirect None (Some (delegating_control_block None)) in
  let after x := Machine (Heap (cells (memory s)) (S (allocs (memory s))))
                   (<[x := broken]> (vars s)) in
  indirect_copy_conv this p s = Ok () (after this) ∧
  indirect_move_conv this p s = Ok () (after this) ∧
  assign_copy_conv target p s = Ok () (after target) ∧
  assign_move_conv target p s = Ok () (after target) ∧
  op_bool this (after this) = Ok true (after this) ∧
  op_arrow this (after this) = Ok None (after this) ∧
  ¬ invariant (memory (after this)) broken ∧
  ∀ c : name, c ≠ this → indirect_copy c this (after this) = Undefined.
Proof.
  intros Hne Hnt Hp Ht Hok broken after.
  destruct s as [[cs n] vs]; cbn [memory vars cells allocs] in *.
  assert (Hmove : ∀ (x src : name) (ws : gmap name (indirect V)),
            src ≠ x →
            ws !! src = Some empty_indirect → ws !! x = Some empty_indirect →
            assign_move_conv x src (Machine (Heap cs n) ws)
            = Ok () (Machine (Heap cs (S n)) (<[x := broken]> ws))).
  { intros x src ws Hsrc Hwp Hwt. unfold_ops. run. rewrite Hok. run.
    do 2 f_equal. apply map_eq; intros k.
    destruct (decide (k = src)) as [->|]; [by simplify_map_eq|].
    destruct (decide (k = x)) as [->|]; by simplify_map_eq. }
  split; [|split; [|split; [|split; [|split; [|split; [|split]]]]]].
  - unfold indirect_copy_conv, constructing.
    unfold bind at 1. unfold store at 1. cbn [memory vars]. unfold on_throw at 1.
    open_local tmp Htmp Hfresh. cbn [memory vars] in Hfresh.
    assert (tmp ≠ this ∧ tmp ≠ p) as [Ht1 Ht2] by set_solver.
    rewrite lookup_insert_ne in Hfresh by done.
    unfold bind at 1.
    rewrite (indirect_copy_empty _ tmp p empty_indirect)
      by (cbn; by simplify_map_eq).
    unfold_ops. run. rewrite Hok. run. subst after. do 2 f_equal.
    apply map_eq; intros k.
    destruct (decide (k = tmp)) as [->|]; [by simplify_map_eq|].
    rewrite lookup_delete_ne by done.
    destruct (decide (k = this)) as [->|]; by simplify_map_eq.
  - unfold_ops. run. rewrite Hok. run. subst after. do 2 f_equal.
    apply map_eq; intros k.
    destruct (decide (k = p)) as [->|]; [by simplify_map_eq|].
    destruct (decide (k = this)) as [->|]; by simplify_map_eq.
  - unfold assign_copy_conv.
    open_local tmp Htmp Hfresh. cbn [memory vars] in Hfresh.
    assert (tmp ≠ target ∧ tmp ≠ p) as [Ht1 Ht2] by set_solver.
    unfold bind at 1.
    rewrite (indirect_copy_empty _ tmp p empty_indirect) by done.
    cbn [memory vars]. unfold bind at 1. unfold on_throw.
    rewrite (Hmove target tmp) by by simplify_map_eq.
    unfold_ops. run. subst after. do 2 f_equal.
    apply map_eq; intros k.
    destruct (decide (k = tmp)) as [->|]; [by simplify_map_eq|].
    rewrite lookup_delete_ne by done.
    destruct (decide (k = target)) as [->|]; by simplify_map_eq.
  - by apply Hmove.
  - unfold_ops. subst after. by run.
  - unfold_ops. subst after. by run.
  - intros [[Hnull _] _]. by specialize (Hnull eq_refl).
  - intros c Hc.
    rewrite (indirect_copy_run (after this) c this broken
               (delegating_control_block None)); try done.
    subst after. cbn. by rewrite lookup_insert_eq.
Qed.

(** C6 fails on one path.  Copy assignment from a source whose block is a
    [pointer_control_block] with the default copier, when the allocator
    grants the storage of the copied object and refuses the storage of the
    new control block: the exception leaves the assignment with every
    container unchanged (the target included), but the object that the
    copier had already made stays on the heap and no container answers
    for it. *)
Theorem copy_assign_leaks_the_copy s this p ip (a : addr) U o v' d :
  p ≠ this →
  vars s !! p = Some ip →
  cb_ ip = Some (pointer_control_block (Some a) (default_copier U) d) →
  cells (memory s) !! a = Some o →
  copy_construct U (state o) = Some v' →
  alloc_ok (allocs (memory s)) = true →
  alloc_ok (S (allocs (memory s))) = false →
  (∀ x i b, vars s !! x = Some i → cb_ i = Some b →
            footprint b ⊆ dom (cells (memory s))) →
  let a' := fresh (dom (cells (memory s))) in
  let s' := Machine (Heap (<[a' := Object U v']> (cells (memory s)))
                          (S (S (allocs (memory s)))))
                    (vars s) in
  assign_copy this p s = Throw s' ∧ leaked s' a'.
Proof.
  intros Hne Hp Hcb Ha Hv Hok1 Hok2 Hfoot a' s'.
  destruct s as [[cs n] vs]; cbn in *. split.
  - apply (assign_copy_clone_throws (Machine (Heap cs n) vs) this p ip _ _
             Hne Hp Hcb).
    cbn. unfold assert_, bind, ret.
    rewrite (default_copier_run _ _ _ _ _ Ha), Hok1, Hv.
    unfold_ops. cbn. by rewrite Hok2.
  - split.
    + subst s'. cbn. rewrite dom_insert_L. set_solver.
    + subst s'. cbn. intros x i b Hx Hb Hin.
      apply (is_fresh (dom cs)). eapply Hfoot; eauto.
Qed.

End departures.

(** ** Accounting for objects: what destruction and cloning do to the heap *)

Section accounting.
Context {V A : Type} `{!World V A}.
Implicit Types (s : machine V) (h : heap V) (cs : gmap addr (object V)).
Implicit Types (b blk : control_block V) (a : addr) (x this : name).

Lemma holds_insert cs b a U v a' o :
  cs !! a' = None → holds cs b a U v → holds (<[a' := o]> cs) b a U v.
Proof.
  intros Hnew. induction 1; constructor; try done;
    by rewrite lookup_insert_ne by congruence.
Qed.

Lemma holds_delete cs b a U v a' :
  a' ≠ a → holds cs b a U v → holds (delete a' cs) b a U v.
Proof.
  intros Hne. induction 1 as [a U v d Ha|a U v Ha|b a U v Hb IH].
  - apply holds_pointer. by rewrite lookup_delete_ne.
  - apply holds_direct. by rewrite lookup_delete_ne.
  - apply holds_delegating. by apply IH.
Qed.

(** Destroying a block that holds its object and deletes by default
    removes exactly that object. *)
Lemma destroy_holds cs n b a U v :
  holds cs b a U v →
  default_deleted b →
  destroy b (Heap cs n) = Ok () (Heap (delete a cs) n).
Proof.
  induction 1 as [a U v d Ha|a U v Ha|b a U v Hb IH]; cbn.
  - intros ->. unfold default_deleter. unfold_ops. by run.
  - intros _. unfold_ops. by run.
  - done.
Qed.

Lemma clone_default_deleted h b a U v b' h' :
  holds (cells h) b a U v →
  default_deleted b →
  clone b h = Ok b' h' →
  default_deleted b'.
Proof.
  intros Hb. revert b' h'. destruct h as [cs n]; cbn in *. revert n.
  induction Hb as [a U v d Ha|a U v Ha|b a U v Hb IH]; intros n b' h' Hd.
  - cbn in *. unfold assert_, bind, ret.
    rewrite (default_copier_run _ _ _ _ _ Ha). cbn.
    destruct (alloc_ok n); [|done].
    destruct (copy_construct U v); [|done].
    unfold_ops. cbn. destruct (alloc_ok (S n)); [|done].
    by intros [= <- <-].
  - cbn. unfold_ops. run. destruct (alloc_ok n); [|done].
    destruct (copy_construct U v); [|done]. by intros [= <- <-].
  - cbn. unfold bind at 1.
    destruct (clone b (Heap cs n)) as [d' [cs1 n1]| | | |] eqn:E; try done.
    unfold_ops. cbn. destruct (alloc_ok n1); [|by destruct (destroy d' _)].
    intros [= <- <-]. cbn. eauto.
Qed.

(** The clone of a well-kept block, when the copy constructor and the
    allocator cooperate: one object more, at a free address, owned by a
    block that is well kept in its turn. *)
Lemma clone_owned h b a U v v' :
  holds (cells h) b a U v →
  copy_construct U v = Some v' →
  (∀ n, allocs h ≤ n → alloc_ok n = true) →
  ∃ b' n',
    clone b h = Ok b' (Heap (<[fresh (dom (cells h)) := Object U v']> (cells h)) n') ∧
    allocs h ≤ n' ∧
    cells h !! fresh (dom (cells h)) = None ∧
    holds (<[fresh (dom (cells h)) := Object U v']> (cells h)) b'
      (fresh (dom (cells h))) U v' ∧
    (default_deleted b → default_deleted b').
Proof.
  intros Hb Hv Hok.
  destruct (clone_succeeds _ _ _ _ _ _ Hb Hv Hok) as (b' & [cs' n'] & E & Hle).
  destruct (clone_holds _ _ _ _ _ _ _ Hb E) as (w & Hw & Hnew & Hcs & Hb').
  assert (w = v') as -> by congruence. cbn in Hcs, Hb', Hle. subst cs'.
  exists b', n'. repeat split; try done.
  intros Hd. by eapply clone_default_deleted.
Qed.

End accounting.

(** ** Clearing, reading, destroying *)

Section lifecycle.
Context {V A : Type} `{!World V A}.
Implicit Types (s : machine V) (h : heap V) (cs : gmap addr (object V)).
Implicit Types (x y this : name) (i : indirect V) (a : addr).

(** X1. [clear] on a well-kept owner destroys the owned object and leaves
    the container empty: [operator bool] answers false and [empty()]
    true, no other object and no other container is touched, no storage
    is requested.  Clearing again changes nothing, and a copy constructed
    from the cleared container is empty as well and costs nothing. *)
Theorem clear_releases_and_empties s x i a U (v : V) :
  vars s !! x = Some i →
  owner (cells (memory s)) i a U v →
  let s' := Machine (Heap (delete a (cells (memory s))) (allocs (memory s)))
              (<[x := empty_indirect]> (vars s)) in
  clear x s = Ok () s' ∧
  op_bool x s' = Ok false s' ∧
  empty_ x s' = Ok true s' ∧
  clear x s' = Ok () s' ∧
  ∀ y, y ≠ x →
       indirect_copy y x s'
       = Ok () (Machine (memory s') (<[y := empty_indirect]> (vars s'))).
Proof.
  intros Hx (b & -> & Hb & Hd) s'.
  destruct s as [[cs n] vs]; cbn [memory vars cells allocs] in *.
  split; [|split; [|split; [|split]]].
  - unfold_ops. run. rewrite (destroy_holds _ _ _ _ _ _ Hb Hd). run.
    subst s'. do 2 f_equal. frame_eq.
  - subst s'. unfold_ops. by run.
  - subst s'. unfold_ops. by run.
  - subst s'. unfold_ops. run. do 2 f_equal. frame_eq.
  - intros y Hy. subst s'.
    by rewrite (indirect_copy_empty _ y x empty_indirect)
      by (try done; cbn; by rewrite lookup_insert_eq).
Qed.

(** X2. On a container whose cached pointer addresses a live object, all
    six accessors succeed in every build, leave the machine as it is, and
    agree: [operator*] and [value()] give the owned object, [operator->]
    its address; the assertion of the read-only [operator->] is not
    triggered. *)
Theorem accessors_on_owner s x i a (o : object V) :
  vars s !! x = Some i →
  ptr_ i = Some a →
  cells (memory s) !! a = Some o →
  op_star x s = Ok o s ∧
  op_star_const x s = Ok o s ∧
  value x s = Ok o s ∧
  value_const x s = Ok o s ∧
  op_arrow x s = Ok (Some a) s ∧
  op_arrow_const x s = Ok (Some a) s.
Proof.
  intros Hx Hp Ha. destruct s as [[cs n] vs], i as [q c]; cbn in *. subst q.
  repeat split; unfold_ops; by run.
Qed.

(** X3. Copy assignment from an empty container is [clear]: for a source
    [p] that is empty and is not the target, [this = p] and [this.clear()]
    are the same computation, whatever the target holds. *)
Theorem assigning_empty_clears s this (p : name) ip :
  p ≠ this →
  vars s !! p = Some ip →
  cb_ ip = None →
  assign_copy this p s = clear this s.
Proof.
  intros Hne Hp Hcb.
  destruct s as [h vs], ip as [q c]; cbn [memory vars cb_] in *. subst c.
  unfold assign_copy. rewrite bool_decide_eq_false_2 by done.
  unfold clear. unfold op_bool, get_cb, load. unfold bind at 1 2 3.
  cbn [vars]. by rewrite Hp.
Qed.

(** The destructor of a well-kept owner, in full. *)
Lemma destructor_frees s x i a U (v : V) :
  vars s !! x = Some i →
  owner (cells (memory s)) i a U v →
  indirect_dtor x s
  = Ok () (Machine (Heap (delete a (cells (memory s))) (allocs (memory s)))
             (delete x (vars s))).
Proof.
  intros Hx (b & -> & Hb & Hd). destruct s as [[cs n] vs]; cbn in *.
  unfold_ops. run. rewrite (destroy_holds _ _ _ _ _ _ Hb Hd). by run.
Qed.

(** X4. The destructor of a well-kept owner destroys exactly the owned
    object and ends the container: the object is no longer alive, the
    container is no longer in scope, every other object and every other
    container stay as they are, and no storage is requested. *)
Theorem destructor_releases s x i a U (v : V) :
  vars s !! x = Some i →
  owner (cells (memory s)) i a U v →
  ∃ s', indirect_dtor x s = Ok () s' ∧
        cells (memory s') !! a = None ∧
        vars s' !! x = None ∧
        allocs (memory s') = allocs (memory s) ∧
        (∀ a2, a2 ≠ a → cells (memory s') !! a2 = cells (memory s) !! a2) ∧
        (∀ y, y ≠ x → vars s' !! y = vars s !! y).
Proof.
  intros Hx Hi. rewrite (destructor_frees s x i a U v Hx Hi).
  eexists. split; [done|]. cbn. repeat split.
  - by rewrite lookup_delete_eq.
  - by rewrite lookup_delete_eq.
  - intros a2 Ha2. by rewrite lookup_delete_ne.
  - intros y Hy. by rewrite lookup_delete_ne.
Qed.

(** X5. [emplace] on a well-kept owner replaces the owned object: the new
    object is built by the constructor of [T] at an address that differs
    from the old one, the old object is destroyed, every other object
    stays, one request of storage is made, and the container is a
    well-kept owner of the new object. *)
Theorem emplace_replaces s x i a W (w : V) T (ts : A) v :
  vars s !! x = Some i →
  owner (cells (memory s)) i a W w →
  construct T ts = Some v →
  alloc_ok (allocs (memory s)) = true →
  let a' := fresh (dom (cells (memory s))) in
  let cs' := delete a (<[a' := Object T v]> (cells (memory s))) in
  let i' := Indirect (Some a') (Some (direct_control_block T a')) in
  emplace T ts x s
  = Ok () (Machine (Heap cs' (S (allocs (memory s)))) (<[x := i']> (vars s))) ∧
  a' ≠ a ∧
  owner cs' i' a' T v.
Proof.
  intros Hx (b & -> & Hb & Hd) Hc Hok a' cs' i'.
  destruct s as [[cs n] vs]; cbn in *.
  assert (Hnew : cs !! a' = None) by apply not_elem_of_dom, is_fresh.
  pose proof (holds_lookup _ _ _ _ _ Hb) as Hlive.
  assert (Hne : a' ≠ a) by congruence.
  split; [|split; [done|]].
  - apply (emplace_ok T ts x (Machine (Heap cs n) vs) v _ _ Hc Hok Hx).
    cbn. apply (destroy_holds _ _ _ a W w); [|done]. by apply holds_insert.
  - exists (direct_control_block T a'). split; [done|]. split; [|done].
    apply holds_direct. subst cs'.
    by rewrite lookup_delete_ne, lookup_insert_eq.
Qed.

(** X6. [make_indirect] gives the strong guarantee: when the constructor
    of [T] throws or the allocator refuses the storage, the exception
    leaves the factory, no container has come into being, and the frame
    and the live objects are as they were. *)
Theorem make_indirect_strong_guarantee T (ts : A) x s :
  construct T ts = None ∨ alloc_ok (allocs (memory s)) = false →
  make_indirect T ts x s
  = Throw (Machine (Heap (cells (memory s)) (S (allocs (memory s)))) (vars s)).
Proof.
  intros Hfail. destruct s as [[cs n] vs]; cbn in *.
  unfold make_indirect. open_local p Hp Hvp. cbn in Hvp.
  assert (Hgone : delete p (<[p := Indirect None None]> vs) = vs).
  { rewrite delete_insert_eq. by apply delete_id. }
  unfold_ops. run.
  destruct (alloc_ok n); run.
  - destruct Hfail as [-> | ?]; [|done]. run. by rewrite Hgone.
  - by rewrite Hgone.
Qed.

(** X7. When the storage of the control block is refused, the adopting
    constructor throws without having taken ownership: the object is
    still alive, its deleter has not been called, and no container exists
    that answers for it. *)
Theorem adopt_failure_leaves_pointer_unowned U a (c : copier V)
    (d : deleter V) this s (o : object V) :
  vars s !! this = None →
  cells (memory s) !! a = Some o →
  typeid o = U →
  (∀ y j b, vars s !! y = Some j → cb_ j = Some b → a ∉ footprint b) →
  alloc_ok (allocs (memory s)) = false →
  let s' := Machine (Heap (cells (memory s)) (S (allocs (memory s)))) (vars s) in
  indirect_adopt U (Some a) c d this s = Throw s' ∧
  cells (memory s') !! a = Some o ∧
  leaked s' a.
Proof.
  intros Hthis Ha Hty Hfree Hok s'.
  destruct s as [[cs n] vs]; cbn [memory vars cells allocs] in *.
  split; [|split; [done|]].
  - unfold_ops. run. destruct debug; [destruct (polymorphic U)|]; run.
    + rewrite bool_decide_eq_true_2 by done. run. rewrite Hok. run.
      subst s'. do 2 f_equal. rewrite delete_insert_eq. by apply delete_id.
    + rewrite bool_decide_eq_true_2 by done. run. rewrite Hok. run.
      subst s'. do 2 f_equal. rewrite delete_insert_eq. by apply delete_id.
    + rewrite Hok. run.
      subst s'. do 2 f_equal. rewrite delete_insert_eq. by apply delete_id.
  - split; [by apply elem_of_dom|]. subst s'. cbn. eauto.
Qed.

End lifecycle.

(** ** Copies that can be copied, assigned and destroyed in turn *)

Section owned_copies.
Context {V A : Type} `{!World V A}.
Implicit Types (s : machine V) (h : heap V) (cs : gmap addr (object V)).
Implicit Types (x y this : name) (ix it : indirect V) (a : addr).

(** Copy construction from a well-kept owner, in full. *)
Lemma indirect_copy_owned s y x ix ax U (v v' : V) :
  y ≠ x →
  vars s !! x = Some ix →
  owner (cells (memory s)) ix ax U v →
  copy_construct U v = Some v' →
  (∀ n, allocs (memory s) ≤ n → alloc_ok n = true) →
  let a' := fresh (dom (cells (memory s))) in
  let cs' := <[a' := Object U v']> (cells (memory s)) in
  ∃ b' n',
    indirect_copy y x s
    = Ok () (Machine (Heap cs' n')
               (<[y := Indirect (Some a') (Some b')]> (vars s))) ∧
    allocs (memory s) ≤ n' ∧
    cells (memory s) !! a' = None ∧
    holds cs' b' a' U v' ∧
    default_deleted b'.
Proof.
  intros Hne Hx (b & -> & Hb & Hd) Hv Hok a' cs'.
  destruct (clone_owned _ _ _ _ _ _ Hb Hv Hok)
    as (b' & n' & E & Hle & Hnew & Hb' & Hd').
  exists b', n'.
  rewrite (indirect_copy_run s y x _ b) by done.
  rewrite E, (holds_ptr _ _ _ _ _ _ Hb'). repeat split; try done.
  by apply Hd'.
Qed.

(** X8. Copy construction from a well-kept owner adds exactly one object
    to the heap, at an address that was free, and touches no other: the
    new container is a well-kept owner of the copy, the source is still a
    well-kept owner of its own object, and every other container is as it
    was.  So a copy can be copied, assigned and destroyed like its
    source. *)
Theorem copy_construction_makes_an_owner s y x ix ax U (v v' : V) :
  y ≠ x →
  vars s !! x = Some ix →
  owner (cells (memory s)) ix ax U v →
  copy_construct U v = Some v' →
  (∀ n, allocs (memory s) ≤ n → alloc_ok n = true) →
  let a' := fresh (dom (cells (memory s))) in
  ∃ s' iy,
    indirect_copy y x s = Ok () s' ∧
    cells (memory s') = <[a' := Object U v']> (cells (memory s)) ∧
    cells (memory s) !! a' = None ∧
    vars s' = <[y := iy]> (vars s) ∧
    owner (cells (memory s')) iy a' U v' ∧
    owner (cells (memory s')) ix ax U v.
Proof.
  intros Hne Hx Hix Hv Hok a'.
  destruct (indirect_copy_owned s y x ix ax U v v' Hne Hx Hix Hv Hok)
    as (b' & n' & E & _ & Hnew & Hb' & Hd').
  destruct Hix as (b & -> & Hb & Hd).
  eexists _, _. split; [exact E|]. cbn. repeat split; try done.
  - by exists b'.
  - exists b. repeat split; try done. by apply holds_insert.
Qed.

(** X9. Building a container and destroying it leaves no object behind.
    A copy constructed from a well-kept owner and then destroyed, and a
    container made by [make_indirect] and then destroyed, both give back
    the live objects and the frame there were before; only the count of
    requests of storage has grown. *)
Theorem build_then_destroy_leaves_nothing s y x ix ax U (v v' : V)
    T (ts : A) w :
  y ≠ x →
  vars s !! y = None →
  vars s !! x = Some ix →
  owner (cells (memory s)) ix ax U v →
  copy_construct U v = Some v' →
  construct T ts = Some w →
  (∀ n, allocs (memory s) ≤ n → alloc_ok n = true) →
  (∃ n', allocs (memory s) ≤ n' ∧
         (indirect_copy y x ;; indirect_dtor y) s
         = Ok () (Machine (Heap (cells (memory s)) n') (vars s))) ∧
  (make_indirect T ts y ;; indirect_dtor y) s
  = Ok () (Machine (Heap (cells (memory s)) (S (allocs (memory s)))) (vars s)).
Proof.
  intros Hne Hy Hx Hix Hv Hw Hok.
  assert (Hvars : ∀ j : indirect V, delete y (<[y := j]> (vars s)) = vars s).
  { intros j. rewrite delete_insert_eq. by apply delete_id. }
  assert (Hcells : ∀ (a : addr) (o : object V),
            cells (memory s) !! a = None →
            delete a (<[a := o]> (cells (memory s))) = cells (memory s)).
  { intros a o Ha. rewrite delete_insert_eq. by apply delete_id. }
  split.
  - destruct (indirect_copy_owned s y x ix ax U v v' Hne Hx Hix Hv Hok)
      as (b' & n' & E & Hle & Hnew & Hb' & Hd').
    exists n'. split; [done|]. unfold bind. rewrite E.
    match goal with
    | |- indirect_dtor y ?m = _ =>
        rewrite (destructor_frees m y
                   (Indirect (Some (fresh (dom (cells (memory s))))) (Some b'))
                   (fresh (dom (cells (memory s)))) U v')
    end.
    + cbn. by rewrite Hvars, Hcells.
    + cbn. by rewrite lookup_insert_eq.
    + by exists b'.
  - unfold bind.
    rewrite (make_indirect_ok T ts y s w Hw) by (apply Hok; lia).
    match goal with
    | |- indirect_dtor y ?m = _ =>
        rewrite (destructor_frees m y
                   (Indirect (Some (fresh (dom (cells (memory s)))))
                      (Some (direct_control_block T
                               (fresh (dom (cells (memory s)))))))
                   (fresh (dom (cells (memory s)))) T w)
    end.
    + cbn. rewrite Hvars, Hcells; [done|]. apply not_elem_of_dom, is_fresh.
    + apply lookup_insert_eq.
    + eexists. split; [done|]. split; [|done]. apply holds_direct.
      apply lookup_insert_eq.
Qed.

(** X10. Copy assignment between two well-kept owners of distinct
    objects: the target ends as a well-kept owner of a fresh copy of the
    source's object, the object the target owned before is destroyed, the
    source and its object are untouched, and no other object changes.
    The copy exists before the old object is let go, so it lives at an
    address different from both. *)
Theorem copy_assignment_replaces s this (p : name) ip it ap at_ U (v v' : V)
    W (w : V) :
  p ≠ this →
  vars s !! p = Some ip →
  vars s !! this = Some it →
  owner (cells (memory s)) ip ap U v →
  owner (cells (memory s)) it at_ W w →
  ap ≠ at_ →
  copy_construct U v = Some v' →
  (∀ n, allocs (memory s) ≤ n → alloc_ok n = true) →
  let a' := fresh (dom (cells (memory s))) in
  let cs' := delete at_ (<[a' := Object U v']> (cells (memory s))) in
  ∃ s' i',
    assign_copy this p s = Ok () s' ∧
    cells (memory s') = cs' ∧
    vars s' = <[this := i']> (vars s) ∧
    owner cs' i' a' U v' ∧
    owner cs' ip ap U v ∧
    a' ≠ ap ∧ a' ≠ at_.
Proof.
  intros Hne Hp Ht (bp & -> & Hbp & Hdp) (bt & -> & Hbt & Hdt) Hdisj Hv Hok
    a' cs'.
  destruct (clone_owned _ _ _ _ _ _ Hbp Hv Hok)
    as (b' & n' & E & Hle & Hnew & Hb' & Hd').
  fold a' in E, Hnew, Hb'.
  pose proof (holds_lookup _ _ _ _ _ Hbp) as Hlp.
  pose proof (holds_lookup _ _ _ _ _ Hbt) as Hlt.
  assert (a' ≠ ap) by congruence. assert (a' ≠ at_) by congruence.
  destruct s as [[cs n] vs]; cbn [memory vars cells allocs] in *.
  exists (Machine (Heap cs' n')
            (<[this := Indirect (Some a') (Some b')]> vs)),
         (Indirect (Some a') (Some b')).
  split; [|split; [done|split; [done|split; [|split; [|done]]]]].
  - unfold assign_copy. rewrite bool_decide_eq_false_2 by done.
    unfold_ops. run. rewrite E. run.
    rewrite (holds_ptr _ _ _ _ _ _ Hb'). run.
    rewrite (destroy_holds _ _ _ at_ W w); [|by apply holds_insert|done].
    run. do 2 f_equal. frame_eq.
  - exists b'. split; [done|]. split; [|by apply Hd'].
    by apply holds_delete.
  - exists bp. split; [done|]. split; [|done].
    apply holds_delete; [done|]. by apply holds_insert.
Qed.

(** X11. A copier that returns a null pointer breaks the copy.
    [pointer_control_block::clone] wraps whatever the copier returns, so
    the copy constructed from such a container has a control block around
    a null pointer: it reports itself non-empty while its cached pointer
    is null, and copying it in turn reaches [assert(p_)]: a debug build
    aborts there, a release build dereferences the null pointer. *)
Theorem null_copier_breaks_the_copy s this (p : name) ip a
    (c : copier V) (d : deleter V) h1 :
  this ≠ p →
  vars s !! p = Some ip →
  cb_ ip = Some (pointer_control_block (Some a) c d) →
  c a (memory s) = Ok None h1 →
  alloc_ok (allocs h1) = true →
  let s' := Machine (Heap (cells h1) (S (allocs h1)))
              (<[this := Indirect None (Some (pointer_control_block None c d))]>
                 (vars s)) in
  indirect_copy this p s = Ok () s' ∧
  op_bool this s' = Ok true s' ∧
  op_arrow this s' = Ok None s' ∧
  ∀ y, y ≠ this →
       indirect_copy y this s' = if debug then AssertFail else Undefined.
Proof.
  intros Hne Hp Hcb Hc Hok s'.
  assert (E : clone (pointer_control_block (Some a) c d) (memory s)
              = Ok (pointer_control_block None c d)
                  (Heap (cells h1) (S (allocs h1)))).
  { cbn. unfold assert_, bind, ret. rewrite Hc. unfold_ops. by rewrite Hok. }
  split; [|split; [|split]].
  - rewrite (indirect_copy_run s this p ip _ Hne Hp Hcb), E. by cbn.
  - subst s'. destruct s as [h vs]. unfold_ops. by run.
  - subst s'. destruct s as [h vs]. unfold_ops. by run.
  - intros y Hy.
    rewrite (indirect_copy_run s' y this
               (Indirect None (Some (pointer_control_block None c d)))
               (pointer_control_block None c d));
      [|done|subst s'; cbn; by rewrite lookup_insert_eq|done].
    cbn. unfold assert_, bind. cbn. by destruct debug.
Qed.

(** X12. Without the assertion, adoption through a base slices.  In a
    release build the adopting constructor takes a pointer to an object
    of any dynamic type [D] as a pointer to [U] and records [U]; the copy
    of the resulting container owns an object of dynamic type [U], made
    by the copy constructor of [U], whatever [D] was. *)
Theorem unchecked_adoption_slices s this y a U D (v v' : V) (d : deleter V) :
  debug = false →
  y ≠ this →
  cells (memory s) !! a = Some (Object D v) →
  copy_construct U v = Some v' →
  (∀ n, allocs (memory s) ≤ n → alloc_ok n = true) →
  ∃ s', (indirect_adopt U (Some a) (default_copier U) d this ;;
         indirect_copy y this ;;
         op_star y) s
        = Ok (Object U v') s'.
Proof.
  intros Hdbg Hne Ha Hv Hok. destruct s as [[cs n] vs]; cbn in Ha, Hok.
  set (blk := pointer_control_block (Some a) (default_copier U) d).
  assert (E1 : indirect_adopt U (Some a) (default_copier U) d this
                 (Machine (Heap cs n) vs)
               = Ok () (Machine (Heap cs (S n))
                          (<[this := Indirect (Some a) (Some blk)]> vs))).
  { unfold_ops. run. rewrite Hdbg. run. rewrite (Hok n) by lia. run.
    do 2 f_equal. frame_eq. }
  assert (E2 : clone blk (Heap cs (S n))
               = Ok (pointer_control_block (Some (fresh (dom cs)))
                       (default_copier U) d)
                   (Heap (<[fresh (dom cs) := Object U v']> cs) (S (S (S n))))).
  { cbn. unfold assert_, bind, ret.
    rewrite (default_copier_run _ _ _ _ _ Ha). cbn.
    rewrite (Hok (S n)), Hv by lia. unfold_ops. cbn.
    by rewrite (Hok (S (S n))) by lia. }
  eexists. unfold bind at 1. rewrite E1. unfold bind at 1.
  rewrite (indirect_copy_run _ y this (Indirect (Some a) (Some blk)) blk);
    [|done|cbn; by rewrite lookup_insert_eq|done].
  cbn [memory]. rewrite E2. cbn. unfold_ops. run. done.
Qed.

End owned_copies.

(** ** Conversions: what they cost and how they fail *)

Section conversions.
Context {V A : Type} `{!World V A}.
Implicit Types (s : machine V) (h : heap V) (cs : gmap addr (object V)).
Implicit Types (this target : name) (ip it : indirect V) (a : addr).


(** X14. The converting copy constructor cleans up after itself.  When
    the source's block has been cloned and the allocator then refuses the
    storage of the delegating block, the exception leaves the constructor,
    the clone is destroyed with the local container that held it, and the
    live objects and the frame are exactly those there were before: the
    copied object does not stay behind. *)
Theorem converting_copy_cleans_up s this (p : name) b ap U (v : V) b' h' :
  this ≠ p →
  vars s !! this = None →
  vars s !! p = Some (Indirect (Some ap) (Some b)) →
  holds (cells (memory s)) b ap U v →
  default_deleted b →
  clone b (memory s) = Ok b' h' →
  alloc_ok (allocs h') = false →
  indirect_copy_conv this p s
  = Throw (Machine (Heap (cells (memory s)) (S (allocs h'))) (vars s)).
Proof.
  intros Hne Hthis Hp Hb Hd E Hok.
  rewrite (indirect_copy_conv_run s this p _ b Hne Hp eq_refl), E.
  destruct (clone_holds _ _ _ _ _ _ _ Hb E) as (v' & _ & Hnew & Hcs & Hb').
  pose proof (clone_default_deleted _ _ _ _ _ _ _ Hb Hd E) as Hd'.
  rewrite (holds_ptr _ _ _ _ _ _ Hb'), Hok. unfold noexcept.
  rewrite (destroy_holds _ _ _ _ _ _ Hb' Hd').
  rewrite Hcs, delete_insert_eq, (delete_id _ _ Hnew).
  by rewrite (delete_id _ _ Hthis).
Qed.

(** X15. The converting copy assignment copies through a local container
    and then move-assigns it: on success the target owns a delegating
    block around a clone of the source's block and what it owned before is
    destroyed.  The wrapping step is the [noexcept] converting move
    assignment, so a refusal of the storage of the delegating block does
    not surface as an exception, as it does in the converting copy
    constructor: the program is terminated. *)
Theorem converting_copy_assignment_wraps_or_terminates s target (p : name)
    it b ap U (v : V) b' h' h'' :
  target ≠ p →
  vars s !! p = Some (Indirect (Some ap) (Some b)) →
  vars s !! target = Some it →
  holds (cells (memory s)) b ap U v →
  clone b (memory s) = Ok b' h' →
  destroy_opt (cb_ it) (Heap (cells h') (S (allocs h'))) = Ok () h'' →
  assign_copy_conv target p s
  = if alloc_ok (allocs h')
    then Ok () (Machine h''
                  (<[target := Indirect (Some (fresh (dom (cells (memory s)))))
                                 (Some (delegating_control_block (Some b')))]>
                     (vars s)))
    else Terminate.
Proof.
  intros Hnt Hp Ht Hb E Hd.
  destruct (clone_holds _ _ _ _ _ _ _ Hb E) as (v' & _ & _ & _ & Hb').
  destruct s as [[cs n] vs], h' as [cs1 n1];
    cbn [memory vars cells allocs] in *.
  unfold assign_copy_conv.
  open_local tmp Htmp Hfresh. cbn [memory vars] in Hfresh.
  assert (tmp ≠ target ∧ tmp ≠ p) as [Ht1 Ht2] by set_solver.
  unfold bind at 1.
  rewrite (indirect_copy_run (Machine (Heap cs n) vs) tmp p _ b Ht2 Hp eq_refl).
  cbn [memory vars]. rewrite E, (holds_ptr _ _ _ _ _ _ Hb').
  unfold_ops. run. destruct (alloc_ok n1); run; [|done].
  rewrite Hd. run. do 2 f_equal.
  apply map_eq; intros k.
  destruct (decide (k = tmp)) as [->|]; [by simplify_map_eq|].
  rewrite lookup_delete_ne by done.
  destruct (decide (k = target)) as [->|]; by simplify_map_eq.
Qed.

End conversions.

(** ** The class invariant, operation by operation *)

Section invariant_everywhere.
Context {V A : Type} `{!World V A}.
Implicit Types (s : machine V) (h : heap V) (this x : name) (i : indirect V).

Lemma indirect_dtor_keeps_sound s x s' :
  all_sound s → indirect_dtor x s = Ok () s' → all_sound s'.
Proof.
  intros Hs. destruct s as [h vs]. unfold_ops. run.
  destruct (vs !! x) as [i|] eqn:Hx; run; [|done].
  destruct (destroy_opt (cb_ i) h) as [[] ?| | | |]; run; try done.
  intros [= <-] y j. cbn. rewrite lookup_delete. case_decide; [done|].
  apply Hs.
Qed.

Lemma assign_move_conv_keeps_sound s this (p : name) ip s' :
  this ≠ p →
  vars s !! p = Some ip →
  is_Some (cb_ ip) →
  all_sound s → assign_move_conv this p s = Ok () s' → all_sound s'.
Proof.
  intros Hne Hp [blk Hcb] Hs. destruct s as [[cs n] vs]. cbn in Hp.
  pose proof (Hs p ip Hp) as Hip. unfold sound in Hip. rewrite Hcb in Hip.
  destruct Hip as (Hreg & [a Ha] & Hptr). destruct ip as [q c]; cbn in *.
  subst q c. unfold_ops. run.
  destruct (alloc_ok n); run; [|done].
  destruct (vs !! this) as [it|] eqn:Ht; run; [|done].
  destruct (destroy_opt (cb_ it) _) as [[] ?| | | |]; run; try done.
  intros [= <-]. sound_frame Hs.
Qed.

Lemma assign_copy_conv_keeps_sound s this (p : name) ip s' :
  this ≠ p →
  vars s !! p = Some ip →
  is_Some (cb_ ip) →
  all_sound s → assign_copy_conv this p s = Ok () s' → all_sound s'.
Proof.
  intros Hne Hp [blk Hcb] Hs.
  pose proof (Hs p ip Hp) as Hip. unfold sound in Hip. rewrite Hcb in Hip.
  destruct Hip as (Hreg & _).
  unfold assign_copy_conv. open_local tmp Htmp Hfresh.
  assert (tmp ≠ this ∧ tmp ≠ p) as [Ht1 Ht2] by set_solver.
  unfold bind at 1. rewrite (indirect_copy_run s tmp p ip blk) by done.
  destruct (clone blk (memory s)) as [blk' h'| | | |] eqn:E; try done.
  destruct (clone_regular _ _ _ _ Hreg E) as (Hreg' & a & Ha). rewrite Ha.
  set (s1 := Machine h' (<[tmp := Indirect (Some a) (Some blk')]> (vars s))).
  assert (Hs1 : all_sound s1).
  { destruct s as [h vs]. subst s1. sound_frame Hs. }
  unfold bind at 1. unfold on_throw.
  destruct (assign_move_conv this tmp s1) as [[] s2| s2| | |] eqn:E2;
    try done.
  - assert (Hs2 : all_sound s2).
    { apply (assign_move_conv_keeps_sound s1 this tmp
               (Indirect (Some a) (Some blk')) s2);
        first [ done | by eexists | subst s1; apply lookup_insert_eq ]. }
    unfold bind at 1.
    destruct (indirect_dtor tmp s2) as [[] s3| | | |] eqn:E3; try done.
    intros [= <-]. by eapply indirect_dtor_keeps_sound.
  - by destruct (indirect_dtor tmp s2).
Qed.

(** X16. The class invariant is kept by every public operation except the
    converting ones on an empty source.  If every container in scope is
    sound (regular blocks; [ptr_] null exactly when [cb_] is, and equal to
    what the block reports otherwise), then every container satisfies the
    class invariant, and whenever one of the following returns, every
    container in scope is sound again: default construction, adoption
    with the default copier, copy and move construction, copy and move
    assignment (self-assignment included), [swap], [emplace], [clear], the
    destructor, and the four converting operations from a source that is
    not empty. *)
Theorem public_operations_keep_the_invariant s :
  all_sound s →
  (∀ x i, vars s !! x = Some i → invariant (memory s) i) ∧
  (∀ this s', indirect_default this s = Ok () s' → all_sound s') ∧
  (∀ U u (d : deleter V) this s',
     indirect_adopt U u (default_copier U) d this s = Ok () s' → all_sound s') ∧
  (∀ this (p : name) s',
     this ≠ p → indirect_copy this p s = Ok () s' → all_sound s') ∧
  (∀ this (p : name) s',
     this ≠ p → indirect_move this p s = Ok () s' → all_sound s') ∧
  (∀ this (p : name) s', assign_copy this p s = Ok () s' → all_sound s') ∧
  (∀ this (p : name) s', assign_move this p s = Ok () s' → all_sound s') ∧
  (∀ this (p : name) s', swap this p s = Ok () s' → all_sound s') ∧
  (∀ T (ts : A) this s', emplace T ts this s = Ok () s' → all_sound s') ∧
  (∀ this s', clear this s = Ok () s' → all_sound s') ∧
  (∀ this s', indirect_dtor this s = Ok () s' → all_sound s') ∧
  (∀ this (p : name) ip s',
     this ≠ p → vars s !! p = Some ip → is_Some (cb_ ip) →
     (indirect_copy_conv this p s = Ok () s' → all_sound s') ∧
     (indirect_move_conv this p s = Ok () s' → all_sound s') ∧
     (assign_copy_conv this p s = Ok () s' → all_sound s') ∧
     (assign_move_conv this p s = Ok () s' → all_sound s')).
Proof.
  intros Hs.
  split; [intros x i Hx; apply sound_invariant; by eapply Hs|].
  split; [intros ? ?; by apply indirect_default_keeps_sound|].
  split; [intros ? ? ? ? ?; by apply indirect_adopt_keeps_sound|].
  split; [intros ? ? ? ?; by apply indirect_copy_keeps_sound|].
  split; [intros ? ? ? ?; by apply indirect_move_keeps_sound|].
  split; [intros ? ? ?; by apply assign_copy_keeps_sound|].
  split; [intros ? ? ?; by apply assign_move_keeps_sound|].
  split; [intros ? ? ?; by apply swap_keeps_sound|].
  split; [intros ? ? ? ?; by apply emplace_keeps_sound|].
  split; [intros ? ?; by apply clear_keeps_sound|].
  split; [intros ? ?; by apply indirect_dtor_keeps_sound|].
  intros this p ip s' Hne Hp Hcb. repeat split.
  - by eapply indirect_copy_conv_keeps_sound.
  - by eapply indirect_move_conv_keeps_sound.
  - by eapply assign_copy_conv_keeps_sound.
  - by eapply assign_move_conv_keeps_sound.
Qed.

End invariant_everywhere.

(** ** Supplied strategies, and copies that fail cleanly *)

Section strategies.
Context {V A : Type} `{!World V A}.
Implicit Types (s : machine V) (h : heap V) (cs : gmap addr (object V)).
Implicit Types (this x y : name) (a : addr).

(** X17. Copies of an object kept inline fail cleanly.  For a source
    whose block keeps its object inline (as [make_indirect] and [emplace]
    build it, also behind delegating blocks), whenever copy construction
    or copy assignment throws, from the allocator or from the copy
    constructor, the live objects are exactly those there were, and every
    container that existed is as it was. *)
Theorem inline_copies_fail_cleanly s this (p : name) b ap U (v : V) :
  this ≠ p →
  vars s !! p = Some (Indirect (Some ap) (Some b)) →
  holds (cells (memory s)) b ap U v →
  inline b →
  (∀ s', assign_copy this p s = Throw s' →
         cells (memory s') = cells (memory s) ∧ vars s' = vars s) ∧
  (∀ s', indirect_copy this p s = Throw s' →
         cells (memory s') = cells (memory s) ∧
         vars s' = delete this (vars s)).
Proof.
  intros Hne Hp Hb Hin. split.
  - intros s'. unfold assign_copy. rewrite bool_decide_eq_false_2 by done.
    destruct s as [h vs]; cbn [memory vars] in *. unfold_ops. run.
    destruct (clone b h) as [b' h'| h'| | |] eqn:E; run; try done.
    + destruct (ptr_cases b' h') as [[q ->]| ->]; run; [|done].
      destruct (vs !! this) as [it|]; run; [|done].
      destruct (destroy_opt (cb_ it) h'); by run.
    + intros [= <-]. cbn. split; [|done].
      by apply (clone_inline_throws_clean h b ap U v h').
  - intros s'. rewrite (indirect_copy_run s this p _ b Hne Hp eq_refl).
    destruct (clone b (memory s)) as [b' h'| h'| | |] eqn:E; try done.
    + by destruct (ptr b' h').
    + intros [= <-]. cbn. split; [|done].
      by apply (clone_inline_throws_clean (memory s) b ap U v h').
Qed.

(** X18. The deleter supplied at adoption is what releases the adopted
    object.  Adopting a pointer and then destroying the container calls
    the supplied deleter on that pointer, once, and does nothing else to
    the heap: whatever heap the deleter leaves is the heap one ends with,
    and the frame is as before. *)
Theorem adopted_object_goes_through_its_deleter U a (c : copier V)
    (d : deleter V) this s (o : object V) h' :
  vars s !! this = None →
  cells (memory s) !! a = Some o →
  typeid o = U →
  alloc_ok (allocs (memory s)) = true →
  d (Some a) (Heap (cells (memory s)) (S (allocs (memory s)))) = Ok () h' →
  (indirect_adopt U (Some a) c d this ;; indirect_dtor this) s
  = Ok () (Machine h' (vars s)).
Proof.
  intros Hthis Ha Hty Hok Hd.
  destruct s as [[cs n] vs]; cbn [memory vars cells allocs] in *.
  assert (Hgone : ∀ j : indirect V, delete this (<[this := j]> vs) = vs).
  { intros j. rewrite delete_insert_eq. by apply delete_id. }
  unfold_ops. run. destruct debug; [destruct (polymorphic U)|]; run.
  - rewrite bool_decide_eq_true_2 by done. run. rewrite Hok. run.
    rewrite Hd. run. by rewrite !insert_insert_eq, Hgone.
  - rewrite bool_decide_eq_true_2 by done. run. rewrite Hok. run.
    rewrite Hd. run. by rewrite !insert_insert_eq, Hgone.
  - rewrite Hok. run. rewrite Hd. run. by rewrite !insert_insert_eq, Hgone.
Qed.

(** X19. Supplied strategies travel with the copies.  The copy of a
    container that adopted its object with a copier [c] and a deleter [d]
    is made by one call of [c] on the owned object, its block holds what
    [c] returned together with [c] and [d] again, and destroying the copy
    calls [d] on what [c] returned. *)
Theorem strategies_travel_with_copies s y x a a2 (c : copier V)
    (d : deleter V) h1 h2 :
  y ≠ x →
  vars s !! y = None →
  vars s !! x = Some (Indirect (Some a) (Some (pointer_control_block (Some a) c d))) →
  c a (memory s) = Ok (Some a2) h1 →
  alloc_ok (allocs h1) = true →
  d (Some a2) (Heap (cells h1) (S (allocs h1))) = Ok () h2 →
  indirect_copy y x s
  = Ok () (Machine (Heap (cells h1) (S (allocs h1)))
             (<[y := Indirect (Some a2)
                       (Some (pointer_control_block (Some a2) c d))]> (vars s))) ∧
  (indirect_copy y x ;; indirect_dtor y) s = Ok () (Machine h2 (vars s)).
Proof.
  intros Hne Hy Hx Hc Hok Hd.
  assert (E : clone (pointer_control_block (Some a) c d) (memory s)
              = Ok (pointer_control_block (Some a2) c d)
                  (Heap (cells h1) (S (allocs h1)))).
  { cbn. unfold assert_, bind, ret. rewrite Hc. unfold_ops. by rewrite Hok. }
  assert (E1 : indirect_copy y x s
               = Ok () (Machine (Heap (cells h1) (S (allocs h1)))
                          (<[y := Indirect (Some a2)
                                    (Some (pointer_control_block (Some a2) c d))]>
                             (vars s)))).
  { rewrite (indirect_copy_run s y x _ _ Hne Hx eq_refl), E. by cbn. }
  split; [done|].
  unfold bind at 1. rewrite E1. destruct s as [h vs]; cbn [vars] in *.
  unfold_ops. run. rewrite Hd. run.
  by rewrite delete_insert_eq, (delete_id _ _ Hy).
Qed.

End strategies.

(** ** The statements at work on concrete machines *)

Section on_integers.
#[local] Existing Instance plain_ints.

(** C4 as the specification words it, on the empty container [0] of
    [one_empty] in a debug build: [operator*] and [value()] would abort on
    an assertion and [operator->] would not.  The code does the opposite:
    the read-only [operator->] is the one that aborts. *)
Lemma accessors_on_empty_counterexample :
  ¬ (op_star_const 0 (one_empty : machine Z) = AssertFail ∧
     value_const 0 (one_empty : machine Z) = AssertFail ∧
     op_arrow_const 0 (one_empty : machine Z) ≠ AssertFail).
Proof. intros (H & _). vm_compute in H. discriminate H. Qed.

(** [accessors_on_empty] on the empty container of [one_empty], in a debug
    build. *)
Lemma accessors_on_empty_witness :
  vars (one_empty : machine Z) !! 0 = Some empty_indirect ∧
  op_arrow_const 0 (one_empty : machine Z) = AssertFail ∧
  op_arrow 0 (one_empty : machine Z) = Ok None one_empty ∧
  op_star_const 0 (one_empty : machine Z) = Undefined ∧
  op_star 0 (one_empty : machine Z) = Undefined ∧
  value_const 0 (one_empty : machine Z) = Undefined ∧
  value 0 (one_empty : machine Z) = Undefined.
Proof.
  split; [reflexivity|].
  exact (accessors_on_empty (one_empty : machine Z) 0 eq_refl).
Defined.


(** [swap_is_involutive] on the two containers of [two_ints]. *)
Lemma swap_is_involutive_witness :
  let swapped := Machine (memory two_ints)
                   (<[1 := int_at 0]> (<[0 := int_at 1]> (vars two_ints))) in
  vars two_ints !! 0 = Some (int_at 0) ∧
  vars two_ints !! 1 = Some (int_at 1) ∧
  swap 0 1 two_ints = Ok () swapped ∧
  swap 0 1 swapped = Ok () two_ints ∧
  swap_free 0 1 two_ints = Ok () swapped ∧
  swap_free 0 1 swapped = Ok () two_ints.
Proof.
  intros swapped. split; [reflexivity|]. split; [reflexivity|].
  exact (swap_is_involutive two_ints 0 1 (int_at 0) (int_at 1) eq_refl eq_refl).
Defined.



(** [converting_from_empty_breaks_invariant] on [two_empty]: the empty
    container [0] is the source, [2] is constructed, [1] is assigned to. *)
Lemma converting_from_empty_breaks_invariant_witness :
  let broken : indirect Z := Indirect None (Some (delegating_control_block None)) in
  let after x := Machine (Heap ∅ 1) (<[x := broken]> (vars two_empty)) in
  vars (two_empty : machine Z) !! 0 = Some empty_indirect ∧
  vars (two_empty : machine Z) !! 1 = Some empty_indirect ∧
  alloc_ok (allocs (memory (two_empty : machine Z))) = true ∧
  indirect_copy_conv 2 0 two_empty = Ok () (after 2) ∧
  indirect_move_conv 2 0 two_empty = Ok () (after 2) ∧
  assign_copy_conv 1 0 two_empty = Ok () (after 1) ∧
  assign_move_conv 1 0 two_empty = Ok () (after 1) ∧
  op_bool 2 (after 2) = Ok true (after 2) ∧
  op_arrow 2 (after 2) = Ok None (after 2) ∧
  ¬ invariant (memory (after 2)) broken ∧
  ∀ c : name, c ≠ 2 → indirect_copy c 2 (after 2) = Undefined.
Proof.
  intros broken after.
  split; [reflexivity|]. split; [reflexivity|]. split; [reflexivity|].
  exact (converting_from_empty_breaks_invariant (two_empty : machine Z) 2 0 1
           ltac:(done) ltac:(done) eq_refl eq_refl eq_refl).
Defined.

End on_integers.

Section on_throwing_constructors.
#[local] Existing Instance throwing_world.

(** [emplace_strong_guarantee] with a constructor that throws, on
    container [0] of [two_ints]. *)
Lemma emplace_strong_guarantee_witness :
  let s' := Machine (Heap (cells (memory two_ints)) 3) (vars two_ints) in
  construct "int" 9%Z = None ∧
  emplace "int" 9%Z 0 two_ints = Throw s' ∧
  vars s' = vars two_ints ∧
  cells (memory s') = cells (memory two_ints).
Proof.
  intros s'.
  pose proof (emplace_strong_guarantee "int" 9%Z 0 two_ints) as [H1 H2].
  split; [reflexivity|]. split; [exact (H1 eq_refl)|].
  exact (H2 s' (H1 eq_refl)).
Defined.

End on_throwing_constructors.

Section on_a_hierarchy.
#[local] Existing Instance plain_shapes.

(** [adopt_by_pointer] in a debug build, on polymorphic classes: a null
    pointer, a pointer to a ["Derived"] adopted as a ["Base"], and a
    pointer to a ["Derived"] adopted as a ["Derived"]. *)
Lemma adopt_by_pointer_witness :
  let c := default_copier "Derived" in
  let d := default_deleter in
  debug = true ∧
  polymorphic "Base" = true ∧
  cells (memory loose_derived) !! 0 = Some (Object "Derived" [1; 2]%Z) ∧
  indirect_adopt "Derived" None c d 0 loose_derived
  = Ok () (Machine (memory loose_derived)
             (<[0 := empty_indirect]> (vars loose_derived))) ∧
  indirect_adopt "Base" (Some 0) c d 0 loose_derived = AssertFail ∧
  indirect_adopt "Derived" (Some 0) c d 0 loose_derived
  = Ok () (Machine (Heap (cells (memory loose_derived)) 1)
             (<[0 := Indirect (Some 0) (Some (pointer_control_block (Some 0) c d))]>
                (vars loose_derived))).
Proof.
  intros c d.
  split; [reflexivity|]. split; [reflexivity|]. split; [reflexivity|].
  split; [exact (proj1 (adopt_by_pointer "Derived" None c d 0 loose_derived)
                   eq_refl)|].
  split.
  - exact (proj1 (proj2 (adopt_by_pointer "Base" (Some 0) c d 0 loose_derived))
             0 (Object "Derived" [1; 2]%Z) eq_refl eq_refl eq_refl eq_refl
             ltac:(done)).
  - exact (proj2 (proj2 (adopt_by_pointer "Derived" (Some 0) c d 0 loose_derived))
             0 eq_refl
             (λ _ _, ex_intro _ (Object "Derived" [1; 2]%Z) (conj eq_refl eq_refl))
             eq_refl).
Defined.


(** [converted_copy_keeps_dynamic_type] on the adopted ["Derived"]:
    container [2] is the converted copy of [0], container [3] the copy of
    [2]. *)
Lemma converted_copy_keeps_dynamic_type_witness :
  let s := adopted_derived plain_shapes in
  let blk := pointer_control_block (Some 0) (default_copier "Derived") default_deleter in
  vars s !! 0 = Some (derived_at plain_shapes 0) ∧
  holds (cells (memory s)) blk 0 "Derived" [1; 2]%Z ∧
  ∃ s1 s2 v' v'',
    indirect_copy_conv 2 0 s = Ok () s1 ∧
    indirect_copy 3 2 s1 = Ok () s2 ∧
    copy_construct "Derived" [1; 2]%Z = Some v' ∧
    copy_construct "Derived" v' = Some v'' ∧
    op_bool 3 s2 = Ok true s2 ∧
    op_star 3 s2 = Ok (Object "Derived" v'') s2.
Proof.
  intros s blk.
  assert (Hb : holds (cells (memory s)) blk 0 "Derived" [1; 2]%Z)
    by (apply holds_pointer; reflexivity).
  pose proof (converted_copy_keeps_dynamic_type s 0 2 3
                (derived_at plain_shapes 0) blk 0 "Derived" [1; 2]%Z
                ltac:(done) ltac:(done) eq_refl eq_refl eq_refl Hb)
    as [H1 H2].
  destruct (H2 (λ w, ex_intro _ _ eq_refl) (λ _ _, eq_refl)) as (s1 & s2 & E1 & E2).
  destruct (H1 s1 s2 E1 E2) as (v' & v'' & H).
  split; [reflexivity|]. split; [exact Hb|].
  exists s1, s2, v', v''. split; [exact E1|]. split; [exact E2|exact H].
Defined.

End on_a_hierarchy.

Section on_classes_without_virtual_functions.
#[local] Existing Instance plain_structs.

(** C7 as the specification words it, in a debug build, on classes
    without virtual functions: a pointer to a ["Derived"] adopted as a
    ["Base"] would abort on the assertion.  It does not: [typeid( *u )]
    names the static type ["Base"], the assertion holds, and the
    constructor returns with the object adopted. *)
Lemma adopt_by_pointer_counterexample :
  ¬ (debug = true →
     cells (memory loose_derived) !! 0 = Some (Object "Derived" [1; 2]%Z) →
     "Derived" ≠ "Base" →
     indirect_adopt "Base" (Some 0) (default_copier "Base") default_deleter 0
       loose_derived
     = AssertFail).
Proof.
  intros H. specialize (H eq_refl eq_refl ltac:(done)).
  vm_compute in H. discriminate H.
Qed.

(** The adopted ["Derived"] is then copied as a ["Base"]: the assertion
    compiled in does not keep slicing out. *)
Example debug_build_slices_without_virtual_functions :
  (indirect_adopt "Base" (Some 0) (default_copier "Base") default_deleter 0 ;;
   indirect_copy 1 0 ;;
   op_star 1) loose_derived
  = Ok (Object "Base" [1]%Z)
       (Machine (Heap {[ 0 := Object "Derived" [1; 2]%Z;
                         1 := Object "Base" [1]%Z ]} 3)
          {[ 0 := Indirect (Some 0)
                    (Some (pointer_control_block (Some 0)
                             (default_copier "Base") default_deleter));
             1 := Indirect (Some 1)
                    (Some (pointer_control_block (Some 1)
                             (default_copier "Base") default_deleter)) ]}).
Proof. reflexivity. Qed.

End on_classes_without_virtual_functions.

Section on_a_release_build.
#[local] Existing Instance release_shapes.

(** What the assertion of the adopting constructor is for: a release
    build adopts a ["Derived"] through a pointer to ["Base"] without a
    word, records ["Base"], and the copy is a sliced ["Base"]. *)
Example release_build_slices :
  (indirect_adopt "Base" (Some 0) (default_copier "Base") default_deleter 0 ;;
   indirect_copy 1 0 ;;
   op_star 1) (Machine (Heap {[ 0 := Object "Derived" [1; 2]%Z ]} 0) ∅)
  = Ok (Object "Base" [1]%Z)
       (Machine (Heap {[ 0 := Object "Derived" [1; 2]%Z;
                         1 := Object "Base" [1]%Z ]} 3)
          {[ 0 := Indirect (Some 0)
                    (Some (pointer_control_block (Some 0)
                             (default_copier "Base") default_deleter));
             1 := Indirect (Some 1)
                    (Some (pointer_control_block (Some 1)
                             (default_copier "Base") default_deleter)) ]}).
Proof. reflexivity. Qed.

End on_a_release_build.


Section on_a_starved_heap.
#[local] Existing Instance starved_shapes.

(** [copy_assign_leaks_the_copy] on the adopted ["Derived"], assigned to
    the empty container [1] while the allocator serves one request only:
    the copy stays at address [1]. *)
Lemma copy_assign_leaks_the_copy_witness :
  let s := adopted_derived starved_shapes in
  let s' := Machine (Heap (<[1 := Object "Derived" [1; 2]%Z]> (cells (memory s))) 2)
              (vars s) in
  vars s !! 0 = Some (derived_at starved_shapes 0) ∧
  cells (memory s) !! 0 = Some (Object "Derived" [1; 2]%Z) ∧
  alloc_ok 0 = true ∧
  alloc_ok 1 = false ∧
  assign_copy 1 0 s = Throw s' ∧
  leaked s' 1.
Proof.
  intros s s'.
  split; [reflexivity|]. split; [reflexivity|].
  split; [reflexivity|]. split; [reflexivity|].
  refine (copy_assign_leaks_the_copy s 1 0 (derived_at starved_shapes 0) 0
            "Derived" (Object "Derived" [1; 2]%Z) [1; 2]%Z default_deleter
            ltac:(done) eq_refl eq_refl eq_refl eq_refl eq_refl eq_refl _).
  intros x i b Hx Hb. unfold s, adopted_derived in *. cbn [vars memory cells] in *.
  destruct (decide (x = 0)) as [->|];
    [|destruct (decide (x = 1)) as [->|]]; simplify_map_eq.
  cbn. rewrite dom_singleton_L. done.
Defined.

End on_a_starved_heap.

Section more_on_integers.
#[local] Existing Instance plain_ints.

(** Container [a] of [two_ints] is a well-kept owner of its integer. *)
Lemma int_at_owner (a : addr) (n : Z) :
  cells (memory two_ints) !! a = Some (Object "int" n) →
  owner (cells (memory two_ints)) (int_at a) a "int" n.
Proof.
  intros Ha. exists (direct_control_block "int" a).
  split; [reflexivity|]. split; [exact (holds_direct _ _ _ _ Ha)|exact I].
Defined.

(** [clear_releases_and_empties] on container [0] of [two_ints]. *)
Lemma clear_releases_and_empties_witness :
  let s' := Machine (Heap (delete 0 (cells (memory two_ints))) 2)
              (<[0 := empty_indirect]> (vars two_ints)) in
  vars two_ints !! 0 = Some (int_at 0) ∧
  owner (cells (memory two_ints)) (int_at 0) 0 "int" 5%Z ∧
  clear 0 two_ints = Ok () s' ∧
  op_bool 0 s' = Ok false s' ∧
  empty_ 0 s' = Ok true s' ∧
  clear 0 s' = Ok () s' ∧
  ∀ y, y ≠ 0 →
       indirect_copy y 0 s'
       = Ok () (Machine (memory s') (<[y := empty_indirect]> (vars s'))).
Proof.
  intros s'. split; [reflexivity|]. split; [exact (int_at_owner 0 5%Z eq_refl)|].
  exact (clear_releases_and_empties two_ints 0 (int_at 0) 0 "int" 5%Z
           eq_refl (int_at_owner 0 5%Z eq_refl)).
Defined.

(** [accessors_on_owner] on container [0] of [two_ints]. *)
Lemma accessors_on_owner_witness :
  let o := Object "int" 5%Z in
  vars two_ints !! 0 = Some (int_at 0) ∧
  cells (memory two_ints) !! 0 = Some o ∧
  op_star 0 two_ints = Ok o two_ints ∧
  op_star_const 0 two_ints = Ok o two_ints ∧
  value 0 two_ints = Ok o two_ints ∧
  value_const 0 two_ints = Ok o two_ints ∧
  op_arrow 0 two_ints = Ok (Some 0) two_ints ∧
  op_arrow_const 0 two_ints = Ok (Some 0) two_ints.
Proof.
  intros o. split; [reflexivity|]. split; [reflexivity|].
  exact (accessors_on_owner two_ints 0 (int_at 0) 0 o eq_refl eq_refl eq_refl).
Defined.

(** [destructor_releases] on container [0] of [two_ints]. *)
Lemma destructor_releases_witness :
  vars two_ints !! 0 = Some (int_at 0) ∧
  ∃ s', indirect_dtor 0 two_ints = Ok () s' ∧
        cells (memory s') !! 0 = None ∧
        vars s' !! 0 = None ∧
        allocs (memory s') = allocs (memory two_ints) ∧
        (∀ a2, a2 ≠ 0 → cells (memory s') !! a2 = cells (memory two_ints) !! a2) ∧
        (∀ y, y ≠ 0 → vars s' !! y = vars two_ints !! y).
Proof.
  split; [reflexivity|].
  exact (destructor_releases two_ints 0 (int_at 0) 0 "int" 5%Z eq_refl
           (int_at_owner 0 5%Z eq_refl)).
Defined.

(** [emplace_replaces] on container [0] of [two_ints], with [int(9)]. *)
Lemma emplace_replaces_witness :
  let cs' := delete 0 (<[2 := Object "int" 9%Z]> (cells (memory two_ints))) in
  let i' := Indirect (Some 2) (Some (direct_control_block "int" 2)) in
  vars two_ints !! 0 = Some (int_at 0) ∧
  construct "int" 9%Z = Some 9%Z ∧
  alloc_ok (allocs (memory two_ints)) = true ∧
  emplace "int" 9%Z 0 two_ints
  = Ok () (Machine (Heap cs' 3) (<[0 := i']> (vars two_ints))) ∧
  2 ≠ 0 ∧
  owner cs' i' 2 "int" 9%Z.
Proof.
  intros cs' i'. split; [reflexivity|]. split; [reflexivity|].
  split; [reflexivity|].
  exact (emplace_replaces two_ints 0 (int_at 0) 0 "int" 5%Z "int" 9%Z 9%Z
           eq_refl (int_at_owner 0 5%Z eq_refl) eq_refl eq_refl).
Defined.

(** [copy_assignment_replaces] on [two_ints]: container [1] is assigned
    the value of container [0]. *)
Lemma copy_assignment_replaces_witness :
  let cs' := delete 1 (<[2 := Object "int" 5%Z]> (cells (memory two_ints))) in
  vars two_ints !! 0 = Some (int_at 0) ∧
  vars two_ints !! 1 = Some (int_at 1) ∧
  copy_construct "int" 5%Z = Some 5%Z ∧
  ∃ s' i',
    assign_copy 1 0 two_ints = Ok () s' ∧
    cells (memory s') = cs' ∧
    vars s' = <[1 := i']> (vars two_ints) ∧
    owner cs' i' 2 "int" 5%Z ∧
    owner cs' (int_at 0) 0 "int" 5%Z ∧
    2 ≠ 0 ∧ 2 ≠ 1.
Proof.
  intros cs'. split; [reflexivity|]. split; [reflexivity|].
  split; [reflexivity|].
  exact (copy_assignment_replaces two_ints 1 0 (int_at 0) (int_at 1) 0 1
           "int" 5%Z 5%Z "int" 7%Z ltac:(done) eq_refl eq_refl
           (int_at_owner 0 5%Z eq_refl) (int_at_owner 1 7%Z eq_refl)
           ltac:(done) eq_refl (λ _ _, eq_refl)).
Defined.

(** [null_copier_breaks_the_copy] on [null_copied]: container [1] is
    copied from container [0]. *)
Lemma null_copier_breaks_the_copy_witness :
  let broken : indirect Z :=
    Indirect None (Some (pointer_control_block None null_copier default_deleter)) in
  let s' := Machine (Heap (cells (memory null_copied)) 1)
              (<[1 := broken]> (vars null_copied)) in
  null_copier 0 (memory null_copied) = Ok None (memory null_copied) ∧
  indirect_copy 1 0 null_copied = Ok () s' ∧
  op_bool 1 s' = Ok true s' ∧
  op_arrow 1 s' = Ok None s' ∧
  ∀ y, y ≠ 1 → indirect_copy y 1 s' = AssertFail.
Proof.
  intros broken s'. split; [reflexivity|].
  exact (null_copier_breaks_the_copy null_copied 1 0 _ 0 null_copier
           default_deleter (memory null_copied)
           ltac:(done) eq_refl eq_refl eq_refl eq_refl).
Defined.


(** [public_operations_keep_the_invariant] on [two_ints]. *)
Lemma public_operations_keep_the_invariant_witness :
  all_sound two_ints ∧
  ∀ x i, vars two_ints !! x = Some i → invariant (memory two_ints) i.
Proof.
  assert (Hs : all_sound two_ints).
  { intros x i Hx. unfold two_ints in Hx. cbn [vars] in Hx.
    destruct (decide (x = 0)) as [->|];
      [|destruct (decide (x = 1)) as [->|]]; simplify_map_eq;
      (split; [exact I|]; split; [by eexists|done]). }
  split; [exact Hs|].
  exact (proj1 (public_operations_keep_the_invariant two_ints Hs)).
Defined.

(** [adopted_object_goes_through_its_deleter] on [loose_int], with the
    default strategies. *)
Lemma adopted_object_goes_through_its_deleter_witness :
  let h' := Heap (delete 0 (cells (memory loose_int))) 1 in
  vars loose_int !! 0 = None ∧
  cells (memory loose_int) !! 0 = Some (Object "int" 5%Z) ∧
  default_deleter (Some 0) (Heap (cells (memory loose_int)) 1) = Ok () h' ∧
  (indirect_adopt "int" (Some 0) (default_copier "int") default_deleter 0 ;;
   indirect_dtor 0) loose_int
  = Ok () (Machine h' (vars loose_int)).
Proof.
  intros h'. split; [reflexivity|]. split; [reflexivity|].
  split; [reflexivity|].
  exact (adopted_object_goes_through_its_deleter "int" 0
           (default_copier "int") default_deleter 0 loose_int
           (Object "int" 5%Z) h' eq_refl eq_refl eq_refl eq_refl eq_refl).
Defined.

(** [strategies_travel_with_copies] on [adopted_int], with the default
    strategies: container [1] is copied from container [0]. *)
Lemma strategies_travel_with_copies_witness :
  let s := adopted_int plain_ints in
  let c := default_copier "int" in
  let h1 := Heap (<[1 := Object "int" 5%Z]> (cells (memory s))) 2 in
  c 0 (memory s) = Ok (Some 1) h1 ∧
  default_deleter (Some 1) (Heap (cells h1) 3) = Ok () (Heap (cells (memory s)) 3) ∧
  indirect_copy 1 0 s
  = Ok () (Machine (Heap (cells h1) 3)
             (<[1 := Indirect (Some 1)
                       (Some (pointer_control_block (Some 1) c default_deleter))]>
                (vars s))) ∧
  (indirect_copy 1 0 ;; indirect_dtor 1) s
  = Ok () (Machine (Heap (cells (memory s)) 3) (vars s)).
Proof.
  intros s c h1. split; [reflexivity|]. split; [reflexivity|].
  exact (strategies_travel_with_copies s 1 0 0 1 c default_deleter h1
           (Heap (cells (memory s)) 3)
           ltac:(done) eq_refl eq_refl eq_refl eq_refl eq_refl).
Defined.

End more_on_integers.

Section more_on_throwing_constructors.
#[local] Existing Instance throwing_world.

(** [make_indirect_strong_guarantee] with a constructor that throws. *)
Lemma make_indirect_strong_guarantee_witness :
  construct "int" 9%Z = None ∧
  make_indirect "int" 9%Z 2 two_ints
  = Throw (Machine (Heap (cells (memory two_ints)) 3) (vars two_ints)).
Proof.
  split; [reflexivity|].
  exact (make_indirect_strong_guarantee "int" 9%Z 2 two_ints (or_introl eq_refl)).
Defined.

(** [inline_copies_fail_cleanly] on [two_ints], with a copy constructor
    that throws: container [1] is assigned, and container [2] constructed,
    from container [0]. *)
Lemma inline_copies_fail_cleanly_witness :
  let s' := Machine (Heap (cells (memory two_ints)) 3) (vars two_ints) in
  vars two_ints !! 0 = Some (int_at 0) ∧
  assign_copy 1 0 two_ints = Throw s' ∧
  cells (memory s') = cells (memory two_ints) ∧
  vars s' = vars two_ints.
Proof.
  intros s'. split; [reflexivity|]. split; [reflexivity|].
  exact (proj1 (inline_copies_fail_cleanly two_ints 1 0
                  (direct_control_block "int" 0) 0 "int" 5%Z
                  ltac:(done) eq_refl
                  (holds_direct (cells (memory two_ints)) 0 "int" 5%Z eq_refl) I)
           s' eq_refl).
Defined.

End more_on_throwing_constructors.

Section more_without_storage.
#[local] Existing Instance no_storage_ints.

(** [adopt_failure_leaves_pointer_unowned] on [loose_int], with an
    allocator that refuses. *)
Lemma adopt_failure_leaves_pointer_unowned_witness :
  let s' := Machine (Heap (cells (memory loose_int)) 1) (vars loose_int) in
  vars loose_int !! 0 = None ∧
  cells (memory loose_int) !! 0 = Some (Object "int" 5%Z) ∧
  alloc_ok 0 = false ∧
  indirect_adopt "int" (Some 0) (default_copier "int") default_deleter 0 loose_int
  = Throw s' ∧
  cells (memory s') !! 0 = Some (Object "int" 5%Z) ∧
  leaked s' 0.
Proof.
  intros s'. split; [reflexivity|]. split; [reflexivity|].
  split; [reflexivity|].
  refine (adopt_failure_leaves_pointer_unowned "int" 0 (default_copier "int")
            default_deleter 0 loose_int (Object "int" 5%Z)
            eq_refl eq_refl eq_refl _ eq_refl).
  intros y j b Hy. unfold loose_int in Hy. cbn [vars] in Hy.
  rewrite lookup_empty in Hy. discriminate Hy.
Defined.

End more_without_storage.

Section more_on_a_hierarchy.
#[local] Existing Instance plain_shapes.

(** Container [0] of [adopted_derived] is a well-kept owner. *)
Lemma derived_at_owner :
  owner (cells (memory (adopted_derived plain_shapes)))
    (derived_at plain_shapes 0) 0 "Derived" [1; 2]%Z.
Proof.
  eexists. split; [reflexivity|].
  split; [apply holds_pointer; reflexivity|reflexivity].
Defined.

(** [assigning_empty_clears] on [adopted_derived]: the empty container [1]
    is assigned to container [0]. *)
Lemma assigning_empty_clears_witness :
  let s := adopted_derived plain_shapes in
  vars s !! 1 = Some empty_indirect ∧
  assign_copy 0 1 s = clear 0 s.
Proof.
  intros s. split; [reflexivity|].
  exact (assigning_empty_clears s 0 1 empty_indirect ltac:(done) eq_refl eq_refl).
Defined.

(** [copy_construction_makes_an_owner] on [adopted_derived]: container
    [2] is copied from container [0]. *)
Lemma copy_construction_makes_an_owner_witness :
  let s := adopted_derived plain_shapes in
  vars s !! 0 = Some (derived_at plain_shapes 0) ∧
  copy_construct "Derived" [1; 2]%Z = Some [1; 2]%Z ∧
  ∃ s' iy,
    indirect_copy 2 0 s = Ok () s' ∧
    cells (memory s') = <[1 := Object "Derived" [1; 2]%Z]> (cells (memory s)) ∧
    cells (memory s) !! 1 = None ∧
    vars s' = <[2 := iy]> (vars s) ∧
    owner (cells (memory s')) iy 1 "Derived" [1; 2]%Z ∧
    owner (cells (memory s')) (derived_at plain_shapes 0) 0 "Derived" [1; 2]%Z.
Proof.
  intros s. split; [reflexivity|]. split; [reflexivity|].
  exact (copy_construction_makes_an_owner s 2 0 (derived_at plain_shapes 0) 0
           "Derived" [1; 2]%Z [1; 2]%Z ltac:(done) eq_refl derived_at_owner
           eq_refl (λ _ _, eq_refl)).
Defined.

(** [build_then_destroy_leaves_nothing] on [adopted_derived]: container
    [2] is copied from container [0], or made in place as a ["Base"]. *)
Lemma build_then_destroy_leaves_nothing_witness :
  let s := adopted_derived plain_shapes in
  vars s !! 2 = None ∧
  vars s !! 0 = Some (derived_at plain_shapes 0) ∧
  construct "Base" [7; 8]%Z = Some [7]%Z ∧
  (∃ n', allocs (memory s) ≤ n' ∧
         (indirect_copy 2 0 ;; indirect_dtor 2) s
         = Ok () (Machine (Heap (cells (memory s)) n') (vars s))) ∧
  (make_indirect "Base" [7; 8]%Z 2 ;; indirect_dtor 2) s
  = Ok () (Machine (Heap (cells (memory s)) 1) (vars s)).
Proof.
  intros s. split; [reflexivity|]. split; [reflexivity|].
  split; [reflexivity|].
  exact (build_then_destroy_leaves_nothing s 2 0 (derived_at plain_shapes 0) 0
           "Derived" [1; 2]%Z [1; 2]%Z "Base" [7; 8]%Z [7]%Z
           ltac:(done) eq_refl eq_refl derived_at_owner eq_refl eq_refl
           (λ _ _, eq_refl)).
Defined.

(** [converting_copy_assignment_wraps_or_terminates] on [adopted_derived]:
    the empty container [1] is assigned the converted copy of [0]. *)
Lemma converting_copy_assignment_wraps_or_terminates_witness :
  let s := adopted_derived plain_shapes in
  let b' := pointer_control_block (Some 1) (default_copier "Derived")
              default_deleter in
  let h' := Heap (<[1 := Object "Derived" [1; 2]%Z]> (cells (memory s))) 2 in
  clone (pointer_control_block (Some 0) (default_copier "Derived")
           default_deleter) (memory s) = Ok b' h' ∧
  assign_copy_conv 1 0 s
  = Ok () (Machine (Heap (cells h') 3)
             (<[1 := Indirect (Some 1)
                       (Some (delegating_control_block (Some b')))]> (vars s))).
Proof.
  intros s b' h'. split; [reflexivity|].
  exact (converting_copy_assignment_wraps_or_terminates s 1 0 empty_indirect
           _ 0 "Derived" [1; 2]%Z b' h' (Heap (cells h') 3)
           ltac:(done) eq_refl eq_refl
           (holds_pointer (cells (memory s)) 0 "Derived" [1; 2]%Z
              default_deleter eq_refl)
           eq_refl eq_refl).
Defined.

End more_on_a_hierarchy.

Section more_on_a_release_build.
#[local] Existing Instance release_shapes.

(** [unchecked_adoption_slices] on [loose_derived]: the ["Derived"] is
    adopted as a ["Base"] by container [0], container [1] is its copy. *)
Lemma unchecked_adoption_slices_witness :
  debug = false ∧
  cells (memory loose_derived) !! 0 = Some (Object "Derived" [1; 2]%Z) ∧
  copy_construct "Base" [1; 2]%Z = Some [1]%Z ∧
  ∃ s', (indirect_adopt "Base" (Some 0) (default_copier "Base") default_deleter 0 ;;
         indirect_copy 1 0 ;;
         op_star 1) loose_derived
        = Ok (Object "Base" [1]%Z) s'.
Proof.
  split; [reflexivity|]. split; [reflexivity|]. split; [reflexivity|].
  exact (unchecked_adoption_slices loose_derived 0 1 0 "Base" "Derived"
           [1; 2]%Z [1]%Z default_deleter eq_refl ltac:(done) eq_refl eq_refl
           (λ _ _, eq_refl)).
Defined.

End more_on_a_release_build.

Section more_on_a_starved_wrapper.
#[local] Existing Instance wrapper_starved_shapes.

(** [converting_copy_cleans_up] on [adopted_derived], with an allocator
    that serves the clone and refuses the delegating block. *)
Lemma converting_copy_cleans_up_witness :
  let s := adopted_derived wrapper_starved_shapes in
  let b := pointer_control_block (Some 0) (default_copier "Derived")
             default_deleter in
  let b' := pointer_control_block (Some 1) (default_copier "Derived")
              default_deleter in
  let h' := Heap (<[1 := Object "Derived" [1; 2]%Z]> (cells (memory s))) 2 in
  vars s !! 2 = None ∧
  clone b (memory s) = Ok b' h' ∧
  alloc_ok 2 = false ∧
  indirect_copy_conv 2 0 s = Throw (Machine (Heap (cells (memory s)) 3) (vars s)).
Proof.
  intros s b b' h'. split; [reflexivity|]. split; [reflexivity|].
  split; [reflexivity|].
  exact (converting_copy_cleans_up s 2 0 b 0 "Derived" [1; 2]%Z b' h'
           ltac:(done) eq_refl eq_refl
           (holds_pointer (cells (memory s)) 0 "Derived" [1; 2]%Z
              default_deleter eq_refl)
           eq_refl eq_refl eq_refl).
Defined.

End more_on_a_starved_wrapper.
